(** * FlowTracker: flow aggregation and signal derivation

    A shallow embedding of [single_security.py], [multi_security.py],
    [main_app.py] and [generate_password_hash.py], and the properties of
    it that the specification states.

    - [Text]:  the string operations the ticker matching uses
               ([str.upper], [in], [split], [startswith], [endswith]);
    - [Match]: the ticker-matching rule of each extraction loop;
    - [Flow]:  dictionaries of dated values, net premium, combined flow;
    - [Stats]: z-scores, activity and momentum bands, MA ratio, percentile;
    - [Binary64]: the mean, the deviation and the z-scores of a short
               series as binary64 arithmetic computes them;
    - [Fetch]: the retail fetch loop over its HTTP outcomes;
    - [Reconcile]: what a reconciled mapping is made of, read off the raw
               series;
    - [Summary]: the latest value of a column;
    - [Session]: login, session expiry and rate limit;
    - [Sizes]: small and large trades put together;
    - [Parse]: the ticker input;
    - [Pages]: the retail comparison page and the price cache.

    The definitions come first, the facts after them. *)

From Stdlib Require Import Ascii String Strings.Byte QArith Qabs Lqa.
From Stdlib Require PrimFloat.
From stdpp Require Import gmap strings list fin_maps sorting.

Local Open Scope string_scope.

(* ===================================================================== *)
(** ** Strings *)
(* ===================================================================== *)

Module Text.

(** [str.upper] on ASCII text: the letters a-z move to A-Z, every other
    character stays. *)
Definition upper_ascii (c : ascii) : ascii :=
  let n := nat_of_ascii c in
  if (97 <=? n)%nat && (n <=? 122)%nat then ascii_of_nat (n - 32) else c.

Fixpoint upper (s : string) : string :=
  match s with
  | EmptyString => EmptyString
  | String c s' => String (upper_ascii c) (upper s')
  end.

(** [s.startswith(p)] *)
Fixpoint startswith (s p : string) {struct p} : bool :=
  match p, s with
  | EmptyString, _ => true
  | String _ _, EmptyString => false
  | String a p', String b s' => Ascii.eqb a b && startswith s' p'
  end.

(** [s.endswith(p)] *)
Definition endswith (s p : string) : bool :=
  (String.length p <=? String.length s)%nat
  && String.eqb (substring (String.length s - String.length p)
                           (String.length p) s) p.

(** [p in s] *)
Fixpoint contains (s p : string) : bool :=
  startswith s p
  || match s with
     | EmptyString => false
     | String _ s' => contains s' p
     end.

(** [s.split(sep)] for a one-character separator. *)
Fixpoint split (sep : ascii) (s : string) : list string :=
  match s with
  | EmptyString => [EmptyString]
  | String c s' =>
      if Ascii.eqb c sep then EmptyString :: split sep s'
      else match split sep s' with
           | [] => [String c EmptyString]
           | w :: ws => String c w :: ws
           end
  end.

(** [ticker_key.split('_')[-1] if '_' in ticker_key else ticker_key] *)
Definition base_ticker (ticker_key : string) : string :=
  if contains ticker_key "_"
  then List.last (split "_"%char ticker_key) EmptyString
  else ticker_key.

(** The target occurs somewhere inside the key. *)
Definition is_substring (p s : string) : Prop :=
  ∃ pre post, s = pre ++ p ++ post.

End Text.

(* ===================================================================== *)
(** ** Ticker matching, one rule per extraction path *)
(* ===================================================================== *)

Module Match.
Import Text.

(** multi_security.py, [calculate_combined_flow_multi], retail loop:
    [ticker_key.upper() == target_upper]. *)
Definition multi_retail_match (ticker_key target_ticker : string) : bool :=
  String.eqb (upper ticker_key) (upper target_ticker).

(** multi_security.py, the options loops of
    [calculate_combined_flow_multi] and [calculate_net_premium_multi]. *)
Definition multi_options_match (ticker_key target_ticker : string) : bool :=
  let target_upper := upper target_ticker in
  let base := upper (base_ticker ticker_key) in
  String.eqb base target_upper
  || String.eqb (upper ticker_key) target_upper
  || endswith (upper ticker_key) ("_" ++ target_upper)
  || startswith (upper ticker_key) (target_upper ++ "_").

(** single_security.py, the retail loops of
    [display_combined_flow_chart], [display_ma_ratio_retail_chart] and
    [display_ma_ratio_combined_chart]:
    [ticker.upper() == ticker_key.upper() or
     ticker.upper() in ticker_key.upper()]. *)
Definition single_retail_match (ticker_key ticker : string) : bool :=
  String.eqb (upper ticker) (upper ticker_key)
  || contains (upper ticker_key) (upper ticker).

(** single_security.py, the options loops of
    [display_combined_flow_chart], [display_ma_ratio_options_chart] and
    [display_ma_ratio_combined_chart]:
    [base_ticker.upper() == target_upper]. *)
Definition single_options_match (ticker_key ticker : string) : bool :=
  String.eqb (upper (base_ticker ticker_key)) (upper ticker).

(** single_security.py, [create_z_score_comparison_chart], retail loop:
    [ticker_key.upper() == ticker.upper()]. *)
Definition zscore_chart_retail_match (ticker_key ticker : string) : bool :=
  String.eqb (upper ticker_key) (upper ticker).

(** single_security.py, [create_z_score_comparison_chart], options loop:
    [ticker.upper() in ticker_key.upper()]. *)
Definition zscore_chart_options_match (ticker_key ticker : string) : bool :=
  contains (upper ticker_key) (upper ticker).

End Match.

(* ===================================================================== *)
(** ** Dictionaries of dated values, net premium, combined flow *)
(* ===================================================================== *)

Module Flow.
Import Text Match.

(** The numbers of the JSON payload (Python [int] or [float]) with the
    three operations the aggregation uses: the literal [0], [+] and [-].
    Nothing is assumed of them, so what is proved of the aggregation
    holds for whichever arithmetic carries the values. *)
Class Number (V : Type) := {
  num_zero : V;
  num_add : V -> V -> V;
  num_sub : V -> V -> V
}.

(** A value of the outer dictionary: a dictionary of dated values, or
    anything else ([isinstance(date_values, dict)] is false). *)
Inductive json_value (V : Type) : Type :=
  | JDict (date_values : gmap string V)
  | JOther.
Arguments JDict {V} date_values.
Arguments JOther {V}.

(** The outer dictionary in insertion order, as [.items()] walks it.
    Dates stay the ISO strings that key the inner dictionaries; the
    records below carry them where the source stores
    [pd.to_datetime(date_str)]. *)
Definition named_series (V : Type) : Type := list (string * json_value V).

(** [{'date', 'ticker', 'value'}] of [calculate_combined_flow_multi]. *)
Record combined_record (V : Type) : Type := {
  cr_date : string;
  cr_ticker : string;
  cr_value : V
}.
Arguments cr_date {V}.
Arguments cr_ticker {V}.
Arguments cr_value {V}.

(** [{'date', 'ticker', 'value', 'call_value', 'put_value'}] of
    [calculate_net_premium_multi]. *)
Record net_record (V : Type) : Type := {
  nr_date : string;
  nr_ticker : string;
  nr_value : V;
  nr_call_value : V;
  nr_put_value : V
}.
Arguments nr_date {V}.
Arguments nr_ticker {V}.
Arguments nr_value {V}.
Arguments nr_call_value {V}.
Arguments nr_put_value {V}.

(** [{'date', 'combined_flow', 'retail_flow', 'small_net', 'large_net'}]
    of [display_combined_flow_chart]. *)
Record chart_record (V : Type) : Type := {
  ch_date : string;
  ch_combined_flow : V;
  ch_retail_flow : V;
  ch_small_net : V;
  ch_large_net : V
}.
Arguments ch_date {V}.
Arguments ch_combined_flow {V}.
Arguments ch_retail_flow {V}.
Arguments ch_small_net {V}.
Arguments ch_large_net {V}.

(** [{'date', 'net_premium'}] of [display_ma_ratio_options_chart]. *)
Record premium_record (V : Type) : Type := {
  pr_date : string;
  pr_net_premium : V
}.
Arguments pr_date {V}.
Arguments pr_net_premium {V}.

Section Aggregation.
Context {V : Type} `{!Number V}.

(** [records.get(date_str, 0)] *)
Definition get (records : gmap string V) (date_str : string) : V :=
  default num_zero (records !! date_str).

(** [records[date_str] = records.get(date_str, 0) + value] *)
Definition add_value (date_str : string) (value : V)
    (records : gmap string V) : gmap string V :=
  <[date_str := num_add (get records date_str) value]> records.

(** [if date_str not in records: records[date_str] = 0]
    [records[date_str] += value] *)
Definition add_value_init (date_str : string) (value : V)
    (records : gmap string V) : gmap string V :=
  let records1 :=
    if decide (date_str ∈ dom records) then records
    else <[date_str := num_zero]> records in
  match records1 !! date_str with
  | Some old => <[date_str := num_add old value]> records1
  | None => records1
  end.

(** [for ticker_key, date_values in data.items():]
    [  if isinstance(date_values, dict) and <match>:]
    [    for date_str, value in date_values.items(): <step>] *)
Definition aggregate
    (step : string -> V -> gmap string V -> gmap string V)
    (matches : string -> bool) (data : named_series V) : gmap string V :=
  foldl (λ records item,
           match item.2 with
           | JDict date_values =>
               if matches item.1 then map_fold step records date_values
               else records
           | JOther => records
           end) ∅ data.

(** The retail loops: the first matching key whose value is a
    dictionary gives the records, and the loop breaks there. *)
Fixpoint first_match (matches : string -> bool) (data : named_series V)
    : gmap string V :=
  match data with
  | [] => ∅
  | (ticker_key, date_values) :: rest =>
      if matches ticker_key then
        match date_values with
        | JDict dv => dv
        | JOther => first_match matches rest
        end
      else first_match matches rest
  end.

(** *** multi_security.py *)

Definition retail_records_multi (retail_flow : named_series V)
    (target_ticker : string) : gmap string V :=
  first_match (λ k, multi_retail_match k target_ticker) retail_flow.

Definition options_records_multi (data : named_series V)
    (target_ticker : string) : gmap string V :=
  aggregate add_value (λ k, multi_options_match k target_ticker) data.

(** The body of the [for target_ticker in ticker_list] loop of
    [calculate_combined_flow_multi]. *)
Definition combined_flow_of_ticker
    (retail_flow small_call small_put large_call large_put : named_series V)
    (target_ticker : string) : list (combined_record V) :=
  let retail_records := retail_records_multi retail_flow target_ticker in
  let small_call_records := options_records_multi small_call target_ticker in
  let small_put_records := options_records_multi small_put target_ticker in
  let large_call_records := options_records_multi large_call target_ticker in
  let large_put_records := options_records_multi large_put target_ticker in
  let all_dates : gset string :=
    dom retail_records
    ∪ dom small_call_records ∪ dom small_put_records
    ∪ dom large_call_records ∪ dom large_put_records in
  (λ date_str,
     let retail_val := get retail_records date_str in
     let small_net := num_sub (get small_call_records date_str)
                              (get small_put_records date_str) in
     let large_net := num_sub (get large_call_records date_str)
                              (get large_put_records date_str) in
     let combined_flow := num_add (num_add retail_val small_net) large_net in
     {| cr_date := date_str; cr_ticker := target_ticker;
        cr_value := combined_flow |})
  <$> elements all_dates.

Definition calculate_combined_flow_multi
    (retail_flow small_call small_put large_call large_put : named_series V)
    (ticker_list : list string) : list (combined_record V) :=
  ticker_list ≫=
    combined_flow_of_ticker retail_flow small_call small_put
                            large_call large_put.

Definition ticker_data_multi (data : named_series V)
    (target_ticker : string) : gmap string V :=
  aggregate add_value_init (λ k, multi_options_match k target_ticker) data.

(** The union loop of [calculate_net_premium_multi] over the two
    reconciled mappings of one ticker. *)
Definition net_premium_records (target_ticker : string)
    (ticker_call_data ticker_put_data : gmap string V)
    : list (net_record V) :=
  let all_dates : gset string :=
    dom ticker_call_data ∪ dom ticker_put_data in
  (λ date_str,
     let call_value := get ticker_call_data date_str in
     let put_value := get ticker_put_data date_str in
     let net_premium := num_sub call_value put_value in
     {| nr_date := date_str; nr_ticker := target_ticker;
        nr_value := net_premium;
        nr_call_value := call_value; nr_put_value := put_value |})
  <$> elements all_dates.

Definition calculate_net_premium_multi
    (call_data put_data : named_series V) (ticker_list : list string)
    : list (net_record V) :=
  ticker_list ≫= λ target_ticker,
    net_premium_records target_ticker
      (ticker_data_multi call_data target_ticker)
      (ticker_data_multi put_data target_ticker).

(** *** single_security.py *)

Definition retail_records_single (retail_flow : named_series V)
    (ticker : string) : gmap string V :=
  first_match (λ k, single_retail_match k ticker) retail_flow.

Definition options_records_single (data : named_series V)
    (ticker : string) : gmap string V :=
  aggregate add_value (λ k, single_options_match k ticker) data.

(** The records of [display_combined_flow_chart]. *)
Definition combined_flow_chart_records
    (retail_flow small_call small_put large_call large_put : named_series V)
    (ticker : string) : list (chart_record V) :=
  let retail_records := retail_records_single retail_flow ticker in
  let small_call_records := options_records_single small_call ticker in
  let small_put_records := options_records_single small_put ticker in
  let large_call_records := options_records_single large_call ticker in
  let large_put_records := options_records_single large_put ticker in
  let all_dates : gset string :=
    dom retail_records
    ∪ dom small_call_records ∪ dom small_put_records
    ∪ dom large_call_records ∪ dom large_put_records in
  (λ date_str,
     let retail_val := get retail_records date_str in
     let small_net := num_sub (get small_call_records date_str)
                              (get small_put_records date_str) in
     let large_net := num_sub (get large_call_records date_str)
                              (get large_put_records date_str) in
     let combined_flow := num_add (num_add retail_val small_net) large_net in
     {| ch_date := date_str; ch_combined_flow := combined_flow;
        ch_retail_flow := retail_val;
        ch_small_net := small_net; ch_large_net := large_net |})
  <$> elements all_dates.

(** The union loop of [display_ma_ratio_options_chart]. *)
Definition ma_ratio_premium_records
    (ticker_call_data ticker_put_data : gmap string V)
    : list (premium_record V) :=
  let all_dates : gset string :=
    dom ticker_call_data ∪ dom ticker_put_data in
  (λ date_str,
     let call_value := get ticker_call_data date_str in
     let put_value := get ticker_put_data date_str in
     let net_premium := num_sub call_value put_value in
     {| pr_date := date_str; pr_net_premium := net_premium |})
  <$> elements all_dates.

End Aggregation.

(** A net-premium record seen from the other side: call and put values
    exchanged, the value passed through [neg]. *)
Definition swap_sides {V : Type} (neg : V -> V) (r : net_record V)
    : net_record V :=
  {| nr_date := nr_date r; nr_ticker := nr_ticker r;
     nr_value := neg (nr_value r);
     nr_call_value := nr_put_value r; nr_put_value := nr_call_value r |}.

(** Exact rational arithmetic, to run the definitions. *)
#[export] Instance Q_number : Number Q :=
  {| num_zero := 0%Q; num_add := Qplus; num_sub := Qminus |}.

End Flow.

(* ===================================================================== *)
(** ** Signal statistics *)
(* ===================================================================== *)

Module Stats.

Local Open Scope Q_scope.

(** A cell of a float column: a finite value or one of the three special
    values.  Finite values are exact rationals and the statistics below
    are the mathematical ones.  They serve for what does not depend on
    rounding: how a column is put together (which window an index reads,
    which cells [replace] and [fillna] rewrite, how long the result is),
    which band a value falls in, and the order of quotients.  Rounding
    itself is followed in [Binary64], on short series. *)
Inductive cell : Type :=
  | Num (q : Q)
  | NaN
  | PosInf
  | NegInf.

(** [x < y] on finite values. *)
Definition Qlt_bool (x y : Q) : bool := negb (Qle_bool y x).

Definition cell_sub (a b : cell) : cell :=
  match a, b with
  | Num x, Num y => Num (x - y)
  | NaN, _ | _, NaN => NaN
  | PosInf, PosInf | NegInf, NegInf => NaN
  | PosInf, _ | _, NegInf => PosInf
  | NegInf, _ | _, PosInf => NegInf
  end.

(** Column division: a finite quotient, [0/0 = NaN], [x/0 = ±inf]. *)
Definition cell_div (a b : cell) : cell :=
  match a, b with
  | NaN, _ | _, NaN => NaN
  | Num x, Num y =>
      if Qeq_bool y 0 then
        if Qeq_bool x 0 then NaN
        else if Qlt_bool 0 x then PosInf else NegInf
      else Num (x / y)
  | Num _, (PosInf | NegInf) => Num 0
  | (PosInf | NegInf), (PosInf | NegInf) => NaN
  | PosInf, Num y => if Qlt_bool y 0 then NegInf else PosInf
  | NegInf, Num y => if Qlt_bool y 0 then PosInf else NegInf
  end.

(** [.fillna(v)] *)
Definition fillna (v : Q) (c : cell) : cell :=
  match c with
  | NaN => Num v
  | _ => c
  end.

(** [.replace(0, np.nan)] *)
Definition replace_zero_nan (c : cell) : cell :=
  match c with
  | Num q => if Qeq_bool q 0 then NaN else c
  | _ => c
  end.

(** [c == 0] *)
Definition cell_is_zero (c : cell) : bool :=
  match c with
  | Num q => Qeq_bool q 0
  | _ => false
  end.

Definition sumQ (l : list Q) : Q := foldr Qplus 0 l.

Definition of_nat (n : nat) : Q := inject_Z (Z.of_nat n).

(** The arithmetic mean of the observations at hand, exact: the program
    rounds the sum and the quotient, so that its mean of equal values
    need not be that value. *)
Definition meanQ (l : list Q) : Q := sumQ l / of_nat (length l).

(** [.mean()]: [NaN] without observations. *)
Definition mean (l : list Q) : cell :=
  match l with
  | [] => NaN
  | _ => Num (meanQ l)
  end.

(** The sample variance ([ddof=1]), exact: it is [0] on equal values,
    where the program's can be a small positive number. *)
Definition sample_var (l : list Q) : Q :=
  sumQ ((λ x, (x - meanQ l) * (x - meanQ l)) <$> l) / of_nat (length l - 1).

(** The observations a trailing window of [w] sees at index [i]: the
    indices [i-w+1 .. i] that exist. *)
Definition window_at (w i : nat) (l : list Q) : list Q :=
  take (S i - (S i - w)) (drop (S i - w) l).

(** [.rolling(window=w, min_periods=1).<stat>()] *)
Definition rolling (stat : list Q -> cell) (w : nat) (l : list Q) : list cell :=
  (λ i, stat (window_at w i l)) <$> seq 0 (length l).

(** The trailing mean at one index, as a number. *)
Definition trailing_mean (w : nat) (l : list Q) (i : nat) : Q :=
  meanQ (window_at w i l).

Section ZScores.

(** The square root of the library, taken as given. *)
Variable sqrtQ : Q -> Q.

(** [.std()]: the sample standard deviation, [NaN] below two
    observations. *)
Definition std (l : list Q) : cell :=
  if (length l <? 2)%nat then NaN else Num (sqrtQ (sample_var l)).

(** [window and len(data_series) >= window] *)
Definition use_window (window : option nat) (len : nat) : option nat :=
  match window with
  | Some w => if negb (w =? 0)%nat && (w <=? len)%nat then Some w else None
  | None => None
  end.

Definition calculate_z_scores (data_series : list Q) (window : option nat)
    : list cell :=
  if (length data_series <=? 1)%nat then
    replicate (length data_series) (Num 0)
  else
    match use_window window (length data_series) with
    | Some w =>
        let rolling_mean := rolling mean w data_series in
        let rolling_std := rolling std w data_series in
        let z_scores :=
          zip_with cell_div
            (zip_with cell_sub (Num <$> data_series) rolling_mean)
            rolling_std in
        fillna 0 <$> z_scores
    | None =>
        let mean_val := mean data_series in
        let std_val := std data_series in
        if cell_is_zero std_val then
          replicate (length data_series) (Num 0)
        else
          (λ x, cell_div (cell_sub (Num x) mean_val) std_val) <$> data_series
    end.

End ZScores.

(** [classify_activity_level] *)
Definition classify_activity_level (z_score : Q) : string * string :=
  if Qlt_bool z_score (-(3#2)) then ("Extreme Light", "🔴")
  else if Qle_bool (-(3#2)) z_score && Qlt_bool z_score (-(1#2))
  then ("Light", "🟡")
  else if Qle_bool (-(1#2)) z_score && Qlt_bool z_score (1#2)
  then ("Neutral", "🟢")
  else if Qle_bool (1#2) z_score && Qlt_bool z_score (3#2)
  then ("Elevated", "🟠")
  else ("Crowded", "🔥").

(** The signal of [display_ma_ratio_metrics] (single_security.py). *)
Definition ma_ratio_signal (latest_ratio : Q) : string * string :=
  if Qlt_bool (3#2) latest_ratio then ("Strong Uptrend", "#28a745")
  else if Qle_bool 1 latest_ratio then ("Uptrend", "#28a745")
  else if Qle_bool (1#2) latest_ratio then ("Downtrend", "#dc3545")
  else ("Strong Downtrend", "#dc3545").

(** [ma_signal] of [display_statistics] (multi_security.py). *)
Definition statistics_ma_signal (latest_ma_ratio : Q) : string :=
  if Qlt_bool (3#2) latest_ma_ratio then "Strong Up"
  else if Qle_bool 1 latest_ma_ratio then "Uptrend"
  else if Qle_bool (1#2) latest_ma_ratio then "Downtrend"
  else "Strong Down".

(** [ma_signal] of [generate_flow_table_html] (multi_security.py). *)
Definition table_ma_signal (latest_ma_ratio : Q) : string :=
  if Qlt_bool (3#2) latest_ma_ratio then "🚀 Strong Up"
  else if Qle_bool 1 latest_ma_ratio then "📈 Uptrend"
  else if Qle_bool (1#2) latest_ma_ratio then "📉 Downtrend"
  else "⚠️ Strong Down".

(** The [ma_ratio] column:
    [ma_5 / ma_21.replace(0, np.nan)], then [.fillna(1)]. *)
Definition ma_ratio (values : list Q) : list cell :=
  let ma_5 := rolling mean 5 values in
  let ma_21 := rolling mean 21 values in
  fillna 1 <$> zip_with cell_div ma_5 (replace_zero_nan <$> ma_21).

(** [(np.sum(values <= latest) / len(values)) * 100], exact: the
    program rounds the quotient and the product, which keeps their order
    and the bounds 0 and 100. *)
Definition percentile (values : list Q) (latest : Q) : Q :=
  (of_nat (length (List.filter (λ v, Qle_bool v latest) values))
   / of_nat (length values)) * 100.

End Stats.

(* ===================================================================== *)
(** ** The z-scores of a short series in binary64 *)
(* ===================================================================== *)

Module Binary64.
Import PrimFloat.

(** [float(n)] for a count. *)
Fixpoint of_count (n : nat) : float :=
  match n with
  | O => 0%float
  | S k => PrimFloat.add (of_count k) 1%float
  end.

(** [pd.notna(x)]: [NaN] is the one value that differs from itself. *)
Definition notna (x : float) : bool := PrimFloat.eqb x x.

(** [.sum()] of a column of fewer than eight values: they are added one
    after the other, from [0].  A longer column is added in blocks, in
    an order that is not followed here: [None]. *)
Definition sum (values : list float) : option float :=
  if (length values <? 8)%nat
  then Some (foldl PrimFloat.add 0%float values)
  else None.

(** [.mean()]: the sum of the values, a [NaN] counting for [0], over the
    number of values that are not [NaN]. *)
Definition mean (values : list float) : option float :=
  let count := length (List.filter notna values) in
  total ← sum ((λ x, if notna x then x else 0%float) <$> values);
  Some (PrimFloat.div total (of_count count)).

(** [.std()], [ddof=1], in two passes: the mean first, then the squared
    deviations from it, summed and divided by the count less one; [0/0]
    is [NaN]. *)
Definition std (values : list float) : option float :=
  let count := length (List.filter notna values) in
  avg ← mean values;
  sqr ← sum ((λ x, if notna x
                   then PrimFloat.mul (PrimFloat.sub avg x)
                                      (PrimFloat.sub avg x)
                   else 0%float) <$> values);
  Some (PrimFloat.sqrt (PrimFloat.div sqr (of_count (count - 1)))).

(** [calculate_z_scores] as binary64 computes it, where the library is
    followed: a series of at most one value, and the branch without a
    rolling window on a series of fewer than eight values.  [None]
    elsewhere. *)
Definition calculate_z_scores (data_series : list float)
    (window : option nat) : option (list float) :=
  if (length data_series <=? 1)%nat then
    Some (replicate (length data_series) 0%float)
  else
    match Stats.use_window window (length data_series) with
    | Some _ => None
    | None =>
        mean_val ← mean data_series;
        std_val ← std data_series;
        if PrimFloat.eqb std_val 0%float then
          Some (replicate (length data_series) 0%float)
        else
          Some ((λ x, PrimFloat.div (PrimFloat.sub x mean_val) std_val)
                  <$> data_series)
    end.

(** One tenth, to the nearest binary64 number: what the literal [0.1]
    denotes. *)
Definition tenth : float := 0x1.999999999999ap-4%float.

End Binary64.

(* ===================================================================== *)
(** ** The retail fetch loop *)
(* ===================================================================== *)

Module Fetch.
Import Flow.

(** What [response.json()] gives.  [K] is the type of the hashable values
    that can key the dictionary being filled: the strings that key a JSON
    object, and whatever first component a pair of a JSON array brings (a
    string, a number, a boolean, null), told apart as Python's [==] and
    [hash] tell them apart.
    - [JsonError]: the call raises, the body is not JSON;
    - [JsonObject]: a JSON object, decoded to a dictionary;
    - [JsonArray]: a JSON array, each element as [dict.update] takes it:
      [Some (k, v)] when it unpacks as a key and a value (an array of two
      elements with a hashable first one, a string of two characters, an
      object of two keys), [None] when it does not and [update] raises
      there;
    - [JsonScalar]: null, a boolean, a number or a string. *)
Inductive json_body (K : Type) `{Countable K} (V : Type) : Type :=
  | JsonError
  | JsonObject (data : gmap K (json_value V))
  | JsonArray (elements : list (option (K * json_value V)))
  | JsonScalar.
Arguments JsonError {K _ _ V}.
Arguments JsonObject {K _ _ V} data.
Arguments JsonArray {K _ _ V} elements.
Arguments JsonScalar {K _ _ V}.

(** What one [requests.get(url, params=params, timeout=30)] does: it
    raises (no connection, timeout), or it returns a response. *)
Inductive http_outcome (K : Type) `{Countable K} (V : Type) : Type :=
  | Raised
  | Response (status_code : Z) (body : json_body K V).
Arguments Raised {K _ _ V}.
Arguments Response {K _ _ V} status_code body.

(** The query of one request: [params['tickers']] and [params['type']]
    when it is set. *)
Record request : Type := {
  rq_tickers : string;
  rq_type : option string
}.

(** What [fetch_stock_flow_data] of single_security.py returns beside the
    status: a dictionary of named sections ([{}] included), or, for one
    transaction side, the series themselves. *)
Inductive fetched (K : Type) `{Countable K} (V : Type) : Type :=
  | Sections (sections : gmap string (gmap K (json_value V)))
  | Series (all_data : gmap K (json_value V)).
Arguments Sections {K _ _ V} sections.
Arguments Series {K _ _ V} all_data.

(** The network: the outcome of the [n]-th request of a run. *)
Definition network (K : Type) `{Countable K} (V : Type) : Type :=
  nat -> request -> http_outcome K V.

Section FetchLoop.
Context {K : Type} `{Countable K} {V : Type}.

(** [acc.update(data)] for a JSON array: the pairs are stored one after
    the other, a later one over an earlier one of the same key, up to the
    first element that is not a pair; there [update] raises, and what was
    stored before stays. *)
Fixpoint update_pairs (elements : list (option (K * json_value V)))
    (acc : gmap K (json_value V)) : gmap K (json_value V) :=
  match elements with
  | [] => acc
  | None :: _ => acc
  | Some (k, v) :: rest => update_pairs rest (<[k := v]> acc)
  end.

(** The [try] block around one request:
    [if response.status_code == 200: data = response.json();]
    [if data: acc.update(data)], every exception swallowed.  An object
    overwrites the keys it brings and an array stores its leading pairs;
    [if data] skips an empty object, an empty array and a falsy scalar,
    which would change nothing either; on any other scalar [update]
    raises before it stores anything. *)
Definition try_update (out : http_outcome K V)
    (acc : gmap K (json_value V)) : gmap K (json_value V) :=
  match out with
  | Raised => acc
  | Response status_code body =>
      if decide (status_code = 200%Z) then
        match body with
        | JsonObject data => data ∪ acc
        | JsonArray elements => update_pairs elements acc
        | JsonError | JsonScalar => acc
        end
      else acc
  end.

(** [not self.vandatrack_token] *)
Definition no_token (token : option string) : bool :=
  match token with
  | None => true
  | Some t => String.eqb t ""
  end.

(** The loop state: the number of requests made so far, and the
    dictionaries filled so far. *)
Definition state_multi : Type := nat * gmap K (json_value V).

Definition state_single : Type :=
  nat * gmap K (json_value V) * gmap K (json_value V)
  * gmap K (json_value V).

(** One turn of the [for ticker in tickers] loop of multi_security.py:
    one request. *)
Definition combined_step_multi (net : network K V) (st : state_multi)
    (ticker : string) : state_multi :=
  let '(n, combined_data) := st in
  let params := {| rq_tickers := ticker; rq_type := None |} in
  (S n, try_update (net n params) combined_data).

(** One turn of the loop of single_security.py: the combined request,
    then the buy side, then the sell side. *)
Definition combined_step_single (net : network K V) (st : state_single)
    (ticker : string) : state_single :=
  let '(n, combined_data, buy_data, sell_data) := st in
  let params := {| rq_tickers := ticker; rq_type := None |} in
  let combined_data := try_update (net n params) combined_data in
  let params_buy := {| rq_tickers := ticker; rq_type := Some "buy" |} in
  let buy_data := try_update (net (S n) params_buy) buy_data in
  let params_sell := {| rq_tickers := ticker; rq_type := Some "sell" |} in
  let sell_data := try_update (net (S (S n)) params_sell) sell_data in
  (S (S (S n)), combined_data, buy_data, sell_data).

(** multi_security.py: one request per ticker. *)
Definition fetch_stock_flow_data_multi (token : option string)
    (net : network K V) (tickers : list string) (transaction_type : string)
    : gmap string (gmap K (json_value V)) * string :=
  if no_token token then (∅, "No token provided")
  else if String.eqb transaction_type "combined" then
    let '(_, combined_data) :=
      foldl (combined_step_multi net) (0%nat, ∅) tickers in
    ({["combined_data" := combined_data]}, "success")
  else (∅, "Not implemented").

(** single_security.py: for ['combined'], three requests per ticker,
    feeding [combined_data], [buy_data] and [sell_data]; for another
    transaction side, one request per ticker with [params['type']] set. *)
Definition fetch_stock_flow_data_single (token : option string)
    (net : network K V) (ticker_list : list string)
    (transaction_type : string) : fetched K V * string :=
  if no_token token then (Sections ∅, "No token provided")
  else if String.eqb transaction_type "combined" then
    let '(_, combined_data, buy_data, sell_data) :=
      foldl (combined_step_single net) (0%nat, ∅, ∅, ∅) ticker_list in
    (Sections (<["combined_data" := combined_data]>
                 (<["buy_data" := buy_data]> {["sell_data" := sell_data]})),
     "success")
  else
    let '(_, all_data) :=
      foldl (λ '(n, all_data) ticker,
               let params :=
                 {| rq_tickers := ticker; rq_type := Some transaction_type |} in
               (S n, try_update (net n params) all_data))
            (0%nat, ∅) ticker_list in
    (Series all_data, "success").

(** A request that brings nothing: it raised, the status is not 200, the
    body does not parse, or the body holds nothing [update] can store: an
    empty object, a scalar, an array that is empty or whose first element
    is not a pair. *)
Definition brings_nothing (out : http_outcome K V) : Prop :=
  match out with
  | Raised => True
  | Response status_code body =>
      status_code ≠ 200%Z ∨
      match body with
      | JsonObject data => data = ∅
      | JsonArray [] | JsonArray (None :: _) => True
      | JsonArray (Some _ :: _) => False
      | JsonError | JsonScalar => True
      end
  end.

End FetchLoop.

End Fetch.

(* ===================================================================== *)
(** ** What a reconciled mapping is made of *)
(* ===================================================================== *)

Module Reconcile.
Import Flow.

(** The values a series holds for one date under the keys a rule matches,
    in the order [.items()] meets them. *)
Definition matching_values {V : Type} (matches : string -> bool)
    (data : named_series V) (date_str : string) : list V :=
  data ≫= λ item,
    match item.2 with
    | JDict date_values =>
        if matches item.1 then option_list (date_values !! date_str) else []
    | JOther => []
    end.

(** No dictionary of the series sits under a key the rule matches. *)
Definition unmatched {V : Type} (matches : string -> bool)
    (data : named_series V) : Prop :=
  ∀ k dv, (k, JDict dv) ∈ data → matches k = false.

(** The date appears in a dictionary of the series that sits under a key
    the rule matches. *)
Definition holds_date {V : Type} (matches : string -> bool)
    (data : named_series V) (date_str : string) : Prop :=
  ∃ k dv, (k, JDict dv) ∈ data ∧ matches k = true
          ∧ is_Some (dv !! date_str).

(** The sum of the values met, from [0], left to right; [0] when there
    is none. *)
Definition total {V : Type} `{!Number V} (values : list V) : V :=
  foldl num_add num_zero values.

(** The retail dictionary of a ticker: the one under the first key the
    rule matches that holds a dictionary, and the empty one when there is
    no such key. *)
Definition retail_source {V : Type} (matches : string -> bool)
    (data : named_series V) (retail : gmap string V) : Prop :=
  (∃ before k after,
     data = (before ++ (k, JDict retail) :: after)%list
     ∧ matches k = true ∧ unmatched matches before)
  ∨ (unmatched matches data ∧ retail = ∅).

End Reconcile.

(* ===================================================================== *)
(** ** The summary columns of the statistics table *)
(* ===================================================================== *)

Module Summary.
Import Stats.

Local Open Scope Q_scope.

(** [values.iloc[-1]] on a series that has a last value. *)
Definition latest (values : list Q) : option Q := last values.


End Summary.

(* ===================================================================== *)
(** ** Authentication, session and rate limit (main_app.py) *)
(* ===================================================================== *)

Module Session.

(** A widget value kept in the session. *)
Inductive widget_value : Type :=
  | WStr (s : string)
  | WInt (n : Z).

(** [st.session_state]: the keys the security code reads and writes, each
    absent or present, and the widget keys.  Instants are microseconds on
    the clock of [datetime.now()]; durations are microseconds too. *)
Record session_state : Type := {
  password_correct : option bool;
  login_time : option Z;
  password : option string;
  failed_attempts : option Z;
  request_history : option (list Z);
  session_start : option Z;
  widgets : gmap string widget_value
}.

(** [st.session_state.clear()] *)
Definition cleared : session_state :=
  {| password_correct := None; login_time := None; password := None;
     failed_attempts := None; request_history := None;
     session_start := None; widgets := ∅ |}.

(** [timedelta(minutes=m)] *)
Definition minutes (m : Z) : Z := (m * 60000000)%Z.

(** [timedelta.seconds]: the seconds left once whole days are taken out. *)
Definition td_seconds (td : Z) : Z := ((td mod 86400000000) / 1000000)%Z.

(** Text is kept one [ascii] per character; a character beyond ASCII is
    one from 128 up.  [is_ascii] is [str.isascii()]. *)
Definition is_ascii (s : string) : bool :=
  forallb (λ c, (nat_of_ascii c <? 128)%nat) (list_ascii_of_string s).

(** The digit [hexdigest] writes for a number below sixteen. *)
Definition hex_digit (n : nat) : ascii :=
  default "0"%char (list_ascii_of_string "0123456789abcdef" !! n).

(** [.hexdigest()] of a digest: two hexadecimal digits per byte. *)
Definition hexdigest (digest : list byte) : string :=
  foldr (λ b text,
           String (hex_digit (Byte.to_nat b / 16))
                  (String (hex_digit (Byte.to_nat b mod 16)) text))
        EmptyString digest.

(** A value read from the secrets file: a string, or something else (a
    number, a boolean, a table). *)
Inductive secret_value : Type :=
  | SecretStr (s : string)
  | SecretOther.

(** [hmac.compare_digest(a, b)] for a string [a]: it raises [TypeError]
    ([None]) unless [b] is a string too and both hold ASCII characters
    only; then it tells whether they are equal. *)
Definition compare_digest (a : string) (b : secret_value) : option bool :=
  match b with
  | SecretStr b =>
      if is_ascii a && is_ascii b then Some (String.eqb a b) else None
  | SecretOther => None
  end.

(** [password_entered]: the callback of the password field.  [sha256] is
    [hashlib.sha256(s.encode()).digest()], [secret] is what the secrets
    file holds under "password_hash", if anything.  [None] stands for an
    exception that leaves the callback: the [KeyError] of a missing
    ["password"] key, the [TypeError] of [hmac.compare_digest]. *)
Definition password_entered (sha256 : string -> list byte)
    (secret : option secret_value) (now : Z) (st : session_state)
    : option session_state :=
  match password st with
  | None => None
  | Some pw =>
      let entered_hash := hexdigest (sha256 pw) in
      let stored_hash := default (SecretStr "") secret in
      match compare_digest entered_hash stored_hash with
      | None => None
      | Some true =>
          Some {| password_correct := Some true;
                  login_time := Some now;
                  password := None;
                  failed_attempts := failed_attempts st;
                  request_history := request_history st;
                  session_start := session_start st;
                  widgets := widgets st |}
      | Some false =>
          Some {| password_correct := Some false;
                  login_time := login_time st;
                  password := password st;
                  failed_attempts :=
                    Some (default 0%Z (failed_attempts st) + 1)%Z;
                  request_history := request_history st;
                  session_start := session_start st;
                  widgets := widgets st |}
      end
  end.

(** The user types [pw] into the password field and the callback runs. *)
Definition enter_password (sha256 : string -> list byte)
    (secret : option secret_value) (now : Z) (pw : string)
    (st : session_state) : option session_state :=
  password_entered sha256 secret now
    {| password_correct := password_correct st;
       login_time := login_time st;
       password := Some pw;
       failed_attempts := failed_attempts st;
       request_history := request_history st;
       session_start := session_start st;
       widgets := widgets st |}.

(** What [check_password] returns:
    [st.session_state.get("password_correct", False)]. *)
Definition check_password (st : session_state) : bool :=
  default false (password_correct st).

(** How a guarded step leaves the script. *)
Inductive flow : Type :=
  | Continue
  | Stop
  | Rerun.

(** [monitor_session].  The three readings of the clock are taken in this
    order: for [session_start], for the left operand of the duration, and
    for the default of [login_time]. *)
Definition monitor_session (t_start t_now t_default : Z)
    (logout_clicked : bool) (st : session_state) : session_state * flow :=
  let st1 :=
    match session_start st with
    | Some _ => st
    | None =>
        {| password_correct := password_correct st;
           login_time := login_time st;
           password := password st;
           failed_attempts := failed_attempts st;
           request_history := request_history st;
           session_start := Some t_start;
           widgets := widgets st |}
    end in
  let session_duration := (t_now - default t_default (login_time st1))%Z in
  if (3600 * 1000000 <? session_duration)%Z then (cleared, Stop)
  else if logout_clicked then (cleared, Rerun)
  else (st1, Continue).

(** The keys the "Reset Session" button spares. *)
Definition kept_keys : list string :=
  ["call_put_selection"; "transaction_type"; "moneyness_option";
   "size_option"; "z_score_window"].

(** The "Reset Session" button: every key outside [kept_keys] is
    deleted. *)
Definition reset_session (st : session_state) : session_state :=
  {| password_correct := None; login_time := None; password := None;
     failed_attempts := None; request_history := None;
     session_start := None;
     widgets := filter (λ kv, kv.1 ∈ kept_keys) (widgets st) |}.

(** What [check_rate_limit] ends in: the request goes on, with the colour
    and the sign of the usage display; or the script stops, telling the
    minutes to wait; or [request_history[0]] fails on an empty history. *)
Inductive rate_outcome : Type :=
  | Allowed (color emoji : string)
  | Limited (remaining_time : Z)
  | IndexError.

Definition with_history (st : session_state) (history : list Z)
    : session_state :=
  {| password_correct := password_correct st;
     login_time := login_time st;
     password := password st;
     failed_attempts := failed_attempts st;
     request_history := Some history;
     session_start := session_start st;
     widgets := widgets st |}.

(** [check_rate_limit(max_requests, window_minutes)] at the instant
    [now]. *)
Definition check_rate_limit (max_requests window_minutes now : Z)
    (st : session_state) : session_state * rate_outcome :=
  let history0 := default [] (request_history st) in
  let cutoff := (now - minutes window_minutes)%Z in
  let history := List.filter (λ req_time, (cutoff <? req_time)%Z) history0 in
  let current_count := Z.of_nat (length history) in
  if (max_requests <=? current_count)%Z then
    match history with
    | [] => (with_history st history, IndexError)
    | first :: _ =>
        let remaining_time :=
          (td_seconds (first + minutes window_minutes - now) / 60)%Z in
        (with_history st history, Limited remaining_time)
    end
  else
    let usage_pct :=
      (inject_Z current_count / inject_Z max_requests * 100)%Q in
    let '(color, emoji) :=
      if Stats.Qlt_bool usage_pct 50 then ("#28a745", "🟢")
      else if Stats.Qlt_bool usage_pct 80 then ("#ffc107", "🟡")
      else ("#dc3545", "🔴") in
    (with_history st (history ++ [now]), Allowed color emoji).

(** A run of analyses at the instants [calls], in order: the session
    after the last one, and the instants that were let through. *)
Fixpoint run_requests (max_requests window_minutes : Z) (calls : list Z)
    (st : session_state) : session_state * list Z :=
  match calls with
  | [] => (st, [])
  | now :: rest =>
      let '(st1, out) := check_rate_limit max_requests window_minutes now st in
      let '(st2, allowed) :=
        run_requests max_requests window_minutes rest st1 in
      match out with
      | Allowed _ _ => (st2, now :: allowed)
      | _ => (st2, allowed)
      end
  end.

(** generate_password_hash.py: the loop asks for a password and its
    confirmation until they agree and the password has eight characters
    or more, then prints the hash.  [inputs] are the pairs typed;
    [None] stands for the end of the input. *)
Fixpoint generate_password_hash (sha256 : string -> list byte)
    (inputs : list (string * string)) : option string :=
  match inputs with
  | [] => None
  | (password, password_confirm) :: rest =>
      if negb (String.eqb password password_confirm) then
        generate_password_hash sha256 rest
      else if (String.length password <? 8)%nat then
        generate_password_hash sha256 rest
      else Some (hexdigest (sha256 password))
  end.

End Session.

(* ===================================================================== *)
(** ** Small and large trades put together *)
(* ===================================================================== *)

Module Sizes.
Import Flow.

Section Combine.
Context {V : Type} `{!Number V}.

(** [isinstance(x, dict)] *)
Definition is_dict (x : json_value V) : bool :=
  match x with
  | JDict _ => true
  | JOther => false
  end.

(** The keys [all_dates.update(x.keys())] adds when [x] is a dictionary. *)
Definition dates_of (x : json_value V) : gset string :=
  match x with
  | JDict dv => dom dv
  | JOther => ∅
  end.

(** [x.get(date_str, 0) if isinstance(x, dict) else 0] *)
Definition value_of (x : json_value V) (date_str : string) : V :=
  match x with
  | JDict dv => get dv date_str
  | JOther => num_zero
  end.

(** [for date_str in all_dates: d[date_str] = f(date_str)] on a new
    dictionary [d]. *)
Definition dict_of_dates (f : string -> V) (all_dates : gset string)
    : gmap string V :=
  set_fold (λ date_str d, <[date_str := f date_str]> d) ∅ all_dates.

(** single_security.py, [combine_size_data]. *)
Definition combine_size_data
    (small_data large_data : gmap string (json_value V))
    : gmap string (gmap string V) :=
  let all_tickers : gset string := dom small_data ∪ dom large_data in
  set_fold
    (λ ticker_key combined_data,
       let small_dates := default (JDict ∅) (small_data !! ticker_key) in
       let large_dates := default (JDict ∅) (large_data !! ticker_key) in
       if is_dict small_dates || is_dict large_dates then
         let all_dates := dates_of small_dates ∪ dates_of large_dates in
         <[ticker_key :=
             dict_of_dates
               (λ date_str,
                  let small_value := value_of small_dates date_str in
                  let large_value := value_of large_dates date_str in
                  num_add small_value large_value)
               all_dates]> combined_data
       else combined_data)
    ∅ all_tickers.

(** What [combine_size_data] stores under a key, if anything. *)
Definition combined_entry (small_data large_data : gmap string (json_value V))
    (k : string) : option (gmap string V) :=
  let small_dates := default (JDict ∅) (small_data !! k) in
  let large_dates := default (JDict ∅) (large_data !! k) in
  if is_dict small_dates || is_dict large_dates then
    Some (dict_of_dates
            (λ d, num_add (value_of small_dates d) (value_of large_dates d))
            (dates_of small_dates ∪ dates_of large_dates))
  else None.

(** multi_security.py, [fetch_options_data_fixed] with [size ==
    'combined']: what one response adds to [combined_call_data] (or to
    [combined_put_data]). *)
Definition add_response (combined : gmap string (gmap string V))
    (response : gmap string (json_value V)) : gmap string (gmap string V) :=
  map_fold
    (λ ticker_key date_values combined,
       match date_values with
       | JDict dv =>
           let combined1 :=
             if decide (ticker_key ∈ dom combined) then combined
             else <[ticker_key := ∅]> combined in
           <[ticker_key :=
               map_fold add_value_init
                 (default ∅ (combined1 !! ticker_key)) dv]> combined1
       | JOther => combined
       end)
    combined response.

(** The two passes of the loop [for size_type in ['small', 'large']]. *)
Definition combine_sizes_multi
    (small_response large_response : gmap string (json_value V))
    : gmap string (gmap string V) :=
  add_response (add_response ∅ small_response) large_response.

End Combine.

End Sizes.

(* ===================================================================== *)
(** ** The ticker field of the main page *)
(* ===================================================================== *)

Module Parse.
Import Text.

(** The ASCII characters [str.strip()] removes. *)
Definition is_space (c : ascii) : bool :=
  let n := nat_of_ascii c in
  ((9 <=? n)%nat && (n <=? 13)%nat) || ((28 <=? n)%nat && (n <=? 32)%nat).

Fixpoint lstrip (s : string) : string :=
  match s with
  | EmptyString => EmptyString
  | String c s' => if is_space c then lstrip s' else s
  end.

Fixpoint rstrip (s : string) : string :=
  match s with
  | EmptyString => EmptyString
  | String c s' =>
      match rstrip s' with
      | EmptyString => if is_space c then EmptyString else String c EmptyString
      | r => String c r
      end
  end.

(** [s.strip()] *)
Definition strip (s : string) : string := rstrip (lstrip s).

(** [[t.strip().upper() for t in tickers_input.split(',') if t.strip()]] *)
Definition parse_tickers (tickers_input : string) : list string :=
  (λ t, upper (strip t))
    <$> List.filter (λ t, negb (String.eqb (strip t) ""))
          (split ","%char tickers_input).

(** A string that does not begin with a space. *)
Definition clean_start (s : string) : Prop :=
  match s with
  | EmptyString => True
  | String c _ => is_space c = false
  end.

(** The character occurs in the string. *)
Fixpoint has_char (c : ascii) (s : string) : bool :=
  match s with
  | EmptyString => false
  | String a s' => Ascii.eqb a c || has_char c s'
  end.

End Parse.

(* ===================================================================== *)
(** ** The retail comparison page and the price cache *)
(* ===================================================================== *)

Module Pages.
Import Flow Fetch.

Section Pages.
Context {K : Type} `{Countable K} {V : Type}.

(** [bool(d)] for a dictionary: it holds a key. *)
Definition truthy {K' A : Type} `{Countable K'} (d : gmap K' A) : bool :=
  negb (bool_decide (dom d = ∅)).

(** [isinstance(date_values, dict)] on a value of the response. *)
Definition as_dict (date_values : json_value V) : option (gmap string V) :=
  match date_values with
  | JDict d => Some d
  | JOther => None
  end.

(** The records [analyze_retail_comparison] builds from [combined_data]:
    one per ticker key and date, for the keys that hold a dictionary, in
    the order of the iteration (the page sorts them afterwards).  A date
    stays the key it is read from; [pd.to_datetime] is not followed. *)
Definition comparison_records {K1 K2 A B : Type}
    `{Countable K1, Countable K2}
    (isinstance_dict : A → option (gmap K2 B))
    (combined_data : gmap K1 A) : list (K2 * K1 * B) :=
  map_to_list combined_data ≫= λ item,
    match isinstance_dict item.2 with
    | Some date_values =>
        (λ dv, (dv.1, item.1, dv.2)) <$> map_to_list date_values
    | None => []
    end.

(** The messages of [st.success] and [st.warning] for the records found. *)
Definition comparison_messages {R : Type} (records : list R) : list string :=
  match records with
  | [] => ["Retail flow data fetched successfully!";
           "No retail flow data found for comparison"]
  | _ => ["Retail flow data fetched successfully!"]
  end.

(** What [analyze_retail_comparison] tells the user once the fetch has
    returned: the messages of [st.success], [st.warning] and [st.error] in
    order, and the records it goes on to chart.  With the key
    'combined_data' a record holds a date, the key of the response it was
    found under and a number ([inl]); without it
    [data.get('combined_data', data)] is [data] itself, every value of
    which is a dictionary, and a record holds a key of that dictionary,
    the key of [data] and the value ([inr]). *)
Definition show_retail_comparison
    (data : gmap string (gmap K (json_value V))) (status : string)
    : list string * (list (string * K * V)
                     + list (K * string * json_value V)) :=
  if String.eqb status "success" && truthy data then
    match data !! "combined_data" with
    | Some combined_data =>
        let records := comparison_records as_dict combined_data in
        (comparison_messages records, inl records)
    | None =>
        let records := comparison_records Some data in
        (comparison_messages records, inr records)
    end
  else (["Failed to fetch retail flow data"], inl []).

Definition analyze_retail_comparison (token : option string)
    (net : network K V) (ticker_list : list string)
    : list string * (list (string * K * V)
                     + list (K * string * json_value V)) :=
  let fetched :=
    fetch_stock_flow_data_multi token net ticker_list "combined" in
  show_retail_comparison fetched.1 fetched.2.

(** What the price provider does for one request: it raises ([None]) or
    it returns the closing prices by date, none for an empty frame. *)
Definition provider_outcome : Type := option (gmap string V).

(** [f"{ticker}_{from_date}_{to_date}"] *)
Definition cache_key (ticker from_date to_date : string) : string :=
  ticker ++ "_" ++ from_date ++ "_" ++ to_date.

(** [fetch_stock_price_data_improved]: the prices returned and the cache
    left behind. *)
Definition fetch_stock_price_data_improved (provider : provider_outcome)
    (ticker from_date to_date : string)
    (price_cache : gmap string (gmap string V))
    : gmap string V * gmap string (gmap string V) :=
  let key := cache_key ticker from_date to_date in
  match price_cache !! key with
  | Some cached => (cached, price_cache)
  | None =>
      match provider with
      | None => (∅, price_cache)
      | Some price_dict =>
          if truthy price_dict
          then (price_dict, <[key := price_dict]> price_cache)
          else (price_dict, price_cache)
      end
  end.

End Pages.

End Pages.

(* ===================================================================== *)
(** ** Sample data *)
(* ===================================================================== *)

Module Samples.
Import Flow.

Definition calls_example : named_series Q :=
  [("OTM_small_AAPL", JDict {["2024-01-02" := 30%Q]});
   ("MSFT", JDict {["2024-01-02" := 7%Q]})].

Definition puts_example : named_series Q :=
  [("AAPL", JDict {["2024-01-01" := 20%Q]}); ("note", JOther)].

Definition retail_example : named_series Q :=
  [("AAPL", JDict (<["2024-01-01" := 100%Q]> {["2024-01-02" := (-50)%Q]}))].

Definition call_dates_example : gmap string Q := {["2024-01-02" := 30%Q]}.

Definition put_dates_example : gmap string Q := {["2024-01-01" := 20%Q]}.

Definition call_only_record : net_record Q :=
  {| nr_date := "2024-01-02"; nr_ticker := "AAPL"; nr_value := (30 - 0)%Q;
     nr_call_value := 30%Q; nr_put_value := 0%Q |}.

Definition put_only_record : net_record Q :=
  {| nr_date := "2024-01-01"; nr_ticker := "AAPL"; nr_value := (0 - 20)%Q;
     nr_call_value := 0%Q; nr_put_value := 20%Q |}.

(** Two networks that give no data: one on which every request times
    out, one that answers every request with an empty object. *)
Definition network_down : Fetch.network string Q := λ _ _, Fetch.Raised.

Definition network_empty : Fetch.network string Q :=
  λ _ _, Fetch.Response 200 (Fetch.JsonObject ∅).

(** A network that answers the first request with a JSON array of
    pairs, [[["AAPL", {"2024-01-02": 30}], 7, ["MSFT", 1]]]: the second
    element is not a pair.  Every later request times out. *)
Definition network_pairs : Fetch.network string Q :=
  λ n _,
    match n with
    | O => Fetch.Response 200
             (Fetch.JsonArray [Some ("AAPL", JDict call_dates_example);
                               None; Some ("MSFT", JOther)])
    | S _ => Fetch.Raised
    end.

(** A stand-in for the hash, to run the login: the bytes of the text
    after a fixed first byte. *)
Definition toy_digest (s : string) : list byte :=
  Byte.x23 :: (byte_of_ascii <$> list_ascii_of_string s).

(** A square root to six decimals, to run the z-scores:
    [sqrt (n/d) = sqrt (n*d) / d]. *)
Definition sqrt_approx (q : Q) : Q :=
  Qmake (Z.sqrt (Qnum q * Zpos (Qden q) * 1000000000000))
        (Qden q * 1000000).

End Samples.

(* ===================================================================== *)
(** * Properties *)
(* ===================================================================== *)

(** ** Strings and ticker matching *)

Module TextFacts.
Import Text.

Lemma startswith_spec s p :
  startswith s p = true ↔ ∃ post, s = p ++ post.
Proof.
  revert s. induction p as [|a p IH]; intros s; simpl.
  - split; [intros _; by exists s | done].
  - destruct s as [|b s]; simpl.
    + split; [done | intros [post Hp]; discriminate].
    + rewrite andb_true_iff, Ascii.eqb_eq, IH. split.
      * intros [-> [post ->]]. by exists post.
      * intros [post Hp]. injection Hp as -> ->. split; [done | by exists post].
Qed.

Lemma append_empty_r (s : string) : s ++ "" = s.
Proof.
  induction s as [|c s IH]; [done|].
  change (String c s ++ "") with (String c (s ++ "")). by rewrite IH.
Qed.

(** [p in s] decides that [p] occurs inside [s]. *)
Lemma contains_spec s p : contains s p = true ↔ is_substring p s.
Proof.
  unfold is_substring. induction s as [|c s IH].
  - simpl. rewrite orb_false_r, startswith_spec. split.
    + intros [post Hp]. by exists EmptyString, post.
    + intros [pre [post Hp]].
      destruct pre; simpl in Hp; [by exists post | discriminate].
  - cbn [contains]. rewrite orb_true_iff, startswith_spec, IH. split.
    + intros [[post Hp] | [pre [post Hp]]].
      * by exists EmptyString, post.
      * exists (String c pre), post. simpl. by rewrite Hp.
    + intros [pre [post Hp]]. destruct pre as [|c' pre]; simpl in Hp.
      * left. by exists post.
      * right. injection Hp as -> ->. by exists pre, post.
Qed.

End TextFacts.

Module MatchFacts.
Import Text Match TextFacts.

(** C8, as stated, fails: the target "AAPL" is a substring of the raw
    keys "OTM_small_AAPL" and "AAPLX", yet the multi-security retail loop
    does not match the first key, and neither options loop matches the
    second. *)
Lemma substring_key_not_matched :
  is_substring (upper "AAPL") (upper "OTM_small_AAPL")
  ∧ multi_retail_match "OTM_small_AAPL" "AAPL" = false
  ∧ is_substring (upper "AAPL") (upper "AAPLX")
  ∧ multi_options_match "AAPLX" "AAPL" = false
  ∧ single_options_match "AAPLX" "AAPL" = false.
Proof.
  repeat split; try reflexivity.
  - by exists "OTM_SMALL_", "".
  - by exists "", "X".
Qed.

(** C8, amended.  Each extraction loop has its own rule.  A key that
    contains the target (case-insensitively) is matched by the retail
    loops of the single-security charts and by the options loop of the
    Z-score comparison chart, and by these only a key that contains it;
    the options loops of the single-security charts match exactly the keys
    whose segment after the last underscore is the target, and the
    multi-security options loops match those keys too; the multi-security
    retail loop and the retail loop of the Z-score comparison chart match
    on equality of the whole key only.  "OTM_small_AAPL" matches "AAPL" on
    the first, second and third kind of loop and not on the last. *)
Theorem ticker_match_by_path (ticker_key target : string) :
  (single_retail_match ticker_key target = true
     ↔ is_substring (upper target) (upper ticker_key))
  ∧ (zscore_chart_options_match ticker_key target = true
       ↔ is_substring (upper target) (upper ticker_key))
  ∧ (single_options_match ticker_key target = true
       ↔ upper (base_ticker ticker_key) = upper target)
  ∧ (upper (base_ticker ticker_key) = upper target →
       multi_options_match ticker_key target = true)
  ∧ (multi_retail_match ticker_key target = true
       ↔ upper ticker_key = upper target)
  ∧ (zscore_chart_retail_match ticker_key target = true
       ↔ upper ticker_key = upper target)
  ∧ single_retail_match "OTM_small_AAPL" "AAPL" = true
  ∧ zscore_chart_options_match "OTM_small_AAPL" "AAPL" = true
  ∧ single_options_match "OTM_small_AAPL" "AAPL" = true
  ∧ multi_options_match "OTM_small_AAPL" "AAPL" = true
  ∧ multi_retail_match "OTM_small_AAPL" "AAPL" = false
  ∧ zscore_chart_retail_match "OTM_small_AAPL" "AAPL" = false.
Proof.
  repeat match goal with |- _ ∧ _ => split end; try reflexivity.
  - unfold single_retail_match.
    rewrite orb_true_iff, String.eqb_eq, contains_spec. split.
    + intros [Heq|Hsub]; [|done]. rewrite <- Heq. exists "", "".
      change ("" ++ upper target ++ "") with (upper target ++ "").
      by rewrite append_empty_r.
    + by right.
  - unfold zscore_chart_options_match. apply contains_spec.
  - unfold single_options_match. apply String.eqb_eq.
  - intros Hbase. unfold multi_options_match.
    by rewrite Hbase, String.eqb_refl.
  - unfold multi_retail_match. apply String.eqb_eq.
  - unfold zscore_chart_retail_match. apply String.eqb_eq.
Qed.

Lemma ticker_match_by_path_witness :
  multi_options_match "OTM_small_AAPL" "AAPL" = true.
Proof.
  destruct (ticker_match_by_path "OTM_small_AAPL" "AAPL")
    as (_ & _ & _ & Hoptions & _).
  apply Hoptions. reflexivity.
Defined.

End MatchFacts.

(** ** Reconciliation, net premium and combined flow *)

Module FlowFacts.
Import Text Match Flow Samples.

Section Aggregation.
Context {V : Type} `{!Number V}.

Lemma get_lookup (records : gmap string V) d v :
  records !! d = Some v → get records d = v.
Proof. unfold get. by intros ->. Qed.

Lemma get_missing (records : gmap string V) d :
  records !! d = None → get records d = num_zero.
Proof. unfold get. by intros ->. Qed.

(** The two ways the source writes the accumulation step agree. *)
Lemma add_value_init_eq d v (records : gmap string V) :
  add_value_init d v records = add_value d v records.
Proof.
  unfold add_value_init, add_value, get. case_decide as Hin.
  - apply elem_of_dom in Hin as [old Hold]. by rewrite Hold.
  - apply not_elem_of_dom in Hin. rewrite lookup_insert_eq, Hin. simpl.
    by rewrite insert_insert_eq.
Qed.

(** One inner loop: every date of [date_values] receives its value on
    top of what was there (or of [0]); the other dates stay. *)
Lemma lookup_add_values (records date_values : gmap string V) d :
  map_fold add_value records date_values !! d =
    match date_values !! d with
    | Some v => Some (num_add (get records d) v)
    | None => records !! d
    end.
Proof.
  revert d.
  apply (map_fold_weak_ind (λ r m, ∀ d, r !! d =
    match m !! d with
    | Some v => Some (num_add (get records d) v)
    | None => records !! d
    end)).
  - intros d. by rewrite lookup_empty.
  - intros i x m r Hnone IH d. unfold add_value.
    destruct (decide (i = d)) as [->|Hne].
    + rewrite !lookup_insert_eq. unfold get at 1. specialize (IH d).
      rewrite Hnone in IH. by rewrite IH.
    + rewrite !lookup_insert_ne by done. apply IH.
Qed.

Lemma dom_add_values (records date_values : gmap string V) :
  dom (map_fold add_value records date_values) = dom records ∪ dom date_values.
Proof.
  apply set_eq. intros d.
  rewrite elem_of_union, !elem_of_dom, lookup_add_values.
  destruct (date_values !! d) as [v|] eqn:Hd.
  - split; [intros _; right; eauto | eauto].
  - split; [by left | intros [?|[? ?]]; [done | discriminate]].
Qed.

Lemma add_values_init_eq (records date_values : gmap string V) :
  map_fold add_value_init records date_values =
  map_fold add_value records date_values.
Proof.
  rewrite !map_fold_foldr. apply foldr_ext; [|done..].
  intros [d v] acc. apply add_value_init_eq.
Qed.

Lemma aggregate_init_eq matches (data : named_series V) :
  aggregate add_value_init matches data = aggregate add_value matches data.
Proof.
  unfold aggregate. generalize (∅ : gmap string V).
  induction data as [|[k jv] data IH]; intros acc; simpl; [done|].
  destruct jv as [dv|]; [|apply IH].
  destruct (matches k); [|apply IH]. rewrite add_values_init_eq. apply IH.
Qed.

(** Which dates a reconciled mapping holds: those of the dictionaries
    stored under a matching key. *)
Lemma elem_of_dom_aggregate matches (data : named_series V) d :
  d ∈ dom (aggregate add_value matches data) ↔
  ∃ k dv, (k, JDict dv) ∈ data ∧ matches k = true ∧ d ∈ dom dv.
Proof.
  unfold aggregate. induction data as [|[k jv] data IH] using rev_ind.
  - simpl. rewrite dom_empty_L. split; [set_solver|].
    intros (k & dv & Hin & _). by apply elem_of_nil in Hin.
  - rewrite foldl_snoc. simpl.
    assert (Hrest : (∃ k' dv, (k', JDict dv) ∈ data ∧ matches k' = true
                       ∧ d ∈ dom dv) →
                    ∃ k' dv, (k', JDict dv) ∈ (data ++ [(k, jv)])%list
                       ∧ matches k' = true ∧ d ∈ dom dv).
    { intros (k' & dv & Hin & Hm & Hd). exists k', dv.
      rewrite elem_of_app. auto. }
    assert (Hlast : ∀ k' dv, (k', JDict dv) ∈ (data ++ [(k, jv)])%list →
                    (k', JDict dv) ∈ data ∨ (k' = k ∧ jv = JDict dv)).
    { intros k' dv Hin. apply elem_of_app in Hin as [Hin|Hin]; [by left|].
      apply list_elem_of_singleton in Hin. injection Hin as -> ->. by right. }
    destruct jv as [dv0|]; [destruct (matches k) eqn:Hk|].
    + rewrite dom_add_values, elem_of_union, IH. split.
      * intros [Hd|Hd]; [by apply Hrest|].
        exists k, dv0. rewrite elem_of_app, list_elem_of_singleton. auto.
      * intros (k' & dv & Hin & Hm & Hd).
        apply Hlast in Hin as [Hin|[-> [= ->]]]; [left; eauto | by right].
    + rewrite IH. split; [apply Hrest|].
      intros (k' & dv & Hin & Hm & Hd).
      apply Hlast in Hin as [Hin|[-> [= ->]]]; [eauto | congruence].
    + rewrite IH. split; [apply Hrest|].
      intros (k' & dv & Hin & Hm & Hd).
      apply Hlast in Hin as [Hin|[-> ?]]; [eauto | discriminate].
Qed.

Lemma net_premium_dates t (A B : gmap string V) :
  nr_date <$> net_premium_records t A B = elements (dom A ∪ dom B).
Proof.
  unfold net_premium_records. rewrite <- list_fmap_compose.
  apply list_fmap_id.
Qed.

Lemma ma_ratio_premium_dates (A B : gmap string V) :
  pr_date <$> ma_ratio_premium_records A B = elements (dom A ∪ dom B).
Proof.
  unfold ma_ratio_premium_records. rewrite <- list_fmap_compose.
  apply list_fmap_id.
Qed.

(** C1. The union loop over two reconciled mappings [A] (calls) and [B]
    (puts) of a ticker, in [calculate_net_premium_multi] and in
    [display_ma_ratio_options_chart]: the dates of the records are exactly
    the dates of [A] together with those of [B], one record per date; the
    value of a record is [A]'s value minus [B]'s with [0] for a missing
    side, so a date of [A] alone gives [a - 0] and a date of [B] alone
    gives [0 - b]. *)
Theorem union_zero_fill (target_ticker : string) (A B : gmap string V) :
  let net := net_premium_records target_ticker A B in
  let ma := ma_ratio_premium_records A B in
  (list_to_set (nr_date <$> net) : gset string) = dom A ∪ dom B
  ∧ NoDup (nr_date <$> net)
  ∧ (∀ r a, r ∈ net → A !! nr_date r = Some a → B !! nr_date r = None →
       nr_value r = num_sub a num_zero)
  ∧ (∀ r b, r ∈ net → A !! nr_date r = None → B !! nr_date r = Some b →
       nr_value r = num_sub num_zero b)
  ∧ (∀ r, r ∈ net →
       nr_value r = num_sub (get A (nr_date r)) (get B (nr_date r)))
  ∧ (list_to_set (pr_date <$> ma) : gset string) = dom A ∪ dom B
  ∧ NoDup (pr_date <$> ma)
  ∧ (∀ r a, r ∈ ma → A !! pr_date r = Some a → B !! pr_date r = None →
       pr_net_premium r = num_sub a num_zero)
  ∧ (∀ r b, r ∈ ma → A !! pr_date r = None → B !! pr_date r = Some b →
       pr_net_premium r = num_sub num_zero b)
  ∧ (∀ r, r ∈ ma →
       pr_net_premium r = num_sub (get A (pr_date r)) (get B (pr_date r))).
Proof.
  intros net ma.
  assert (Hnet : ∀ r, r ∈ net →
    nr_value r = num_sub (get A (nr_date r)) (get B (nr_date r))).
  { intros r Hr. apply list_elem_of_fmap in Hr as (d & -> & _). done. }
  assert (Hma : ∀ r, r ∈ ma →
    pr_net_premium r = num_sub (get A (pr_date r)) (get B (pr_date r))).
  { intros r Hr. apply list_elem_of_fmap in Hr as (d & -> & _). done. }
  subst net ma. rewrite net_premium_dates, ma_ratio_premium_dates.
  rewrite list_to_set_elements_L.
  repeat split; try done; try apply NoDup_elements.
  - intros r a Hr Ha Hb.
    by rewrite (Hnet r Hr), (get_lookup _ _ _ Ha), (get_missing _ _ Hb).
  - intros r b Hr Ha Hb.
    by rewrite (Hnet r Hr), (get_missing _ _ Ha), (get_lookup _ _ _ Hb).
  - intros r a Hr Ha Hb.
    by rewrite (Hma r Hr), (get_lookup _ _ _ Ha), (get_missing _ _ Hb).
  - intros r b Hr Ha Hb.
    by rewrite (Hma r Hr), (get_missing _ _ Ha), (get_lookup _ _ _ Hb).
Qed.

(** C7. With the call and put arguments of [calculate_net_premium_multi]
    exchanged, the records are those of the original call, each for the
    same ticker and date, with its value negated and its call and put
    values exchanged; negation is any [neg] with [neg (a - b) = b - a]. *)
Theorem net_premium_antisymmetry (neg : V → V)
    (Hneg : ∀ a b, neg (num_sub a b) = num_sub b a)
    (call_data put_data : named_series V) (ticker_list : list string) :
  calculate_net_premium_multi put_data call_data ticker_list =
  swap_sides neg <$> calculate_net_premium_multi call_data put_data ticker_list.
Proof.
  unfold calculate_net_premium_multi.
  induction ticker_list as [|t ticker_list IH]; [done|].
  cbn [mbind list_bind]. rewrite fmap_app. f_equal; [|apply IH].
  unfold net_premium_records. rewrite <- list_fmap_compose.
  rewrite (union_comm_L (dom (ticker_data_multi put_data t))).
  apply list_fmap_ext. intros _ d _. unfold swap_sides. simpl.
  by rewrite Hneg.
Qed.

End Aggregation.

(** In exact arithmetic the opposite of [a - b] is [b - a], term for
    term. *)
Lemma Qopp_minus_swap (a b : Q) : Qopp (Qminus a b) = Qminus b a.
Proof.
  destruct a as [an ad], b as [bn bd].
  unfold Qminus, Qplus, Qopp. simpl. f_equal; [lia|].
  apply Pos.mul_comm.
Qed.

Lemma union_zero_fill_witness :
  nr_value call_only_record = num_sub 30%Q num_zero
  ∧ nr_value put_only_record = num_sub num_zero 20%Q.
Proof.
  pose proof (union_zero_fill "AAPL" call_dates_example put_dates_example)
    as (_ & _ & Hcall & Hput & _).
  split.
  - apply Hcall; [vm_compute; repeat constructor | reflexivity..].
  - apply Hput; [vm_compute; repeat constructor | reflexivity..].
Defined.

Lemma net_premium_antisymmetry_witness :
  calculate_net_premium_multi puts_example calls_example ["AAPL"; "MSFT"] =
  swap_sides Qopp
    <$> calculate_net_premium_multi calls_example puts_example ["AAPL"; "MSFT"].
Proof.
  apply (@net_premium_antisymmetry Q Q_number Qopp Qopp_minus_swap).
Defined.

(** The scenario of the specification: retail, small calls and large
    puts of AAPL over two days. *)
Example combined_flow_scenario :
  calculate_combined_flow_multi retail_example
    [("OTM_small_AAPL", JDict {["2024-01-02" := 30%Q]})] []
    [] [("AAPL", JDict {["2024-01-01" := 20%Q]})] ["AAPL"]
  = [ {| cr_date := "2024-01-01"; cr_ticker := "AAPL";
         cr_value := (100 + (0 - 0) + (0 - 20))%Q |};
      {| cr_date := "2024-01-02"; cr_ticker := "AAPL";
         cr_value := (-50 + (30 - 0) + (0 - 0))%Q |} ].
Proof. reflexivity. Qed.

End FlowFacts.

(** ** Signal statistics *)

Module StatsFacts.
Import Stats.

Local Open Scope Q_scope.

Lemma Qlt_bool_true x y : Qlt_bool x y = true ↔ x < y.
Proof.
  unfold Qlt_bool. rewrite negb_true_iff, <- not_true_iff_false, Qle_bool_iff.
  split; [apply Qnot_le_lt | apply Qlt_not_le].
Qed.

Lemma Qlt_bool_false x y : Qlt_bool x y = false ↔ y <= x.
Proof. unfold Qlt_bool. by rewrite negb_false_iff, Qle_bool_iff. Qed.

Lemma Qle_bool_false x y : Qle_bool x y = false ↔ y < x.
Proof.
  rewrite <- not_true_iff_false, Qle_bool_iff.
  split; [apply Qnot_le_lt | apply Qlt_not_le].
Qed.

(** Split on every threshold test in the goal and read each outcome as
    an inequality. *)
Ltac split_tests :=
  repeat match goal with
    | |- context [Qlt_bool ?a ?b] => destruct (Qlt_bool a b) eqn:?
    | |- context [Qle_bool ?a ?b] => destruct (Qle_bool a b) eqn:?
    end;
  repeat match goal with
    | H : Qlt_bool _ _ = true |- _ => apply Qlt_bool_true in H
    | H : Qlt_bool _ _ = false |- _ => apply Qlt_bool_false in H
    | H : Qle_bool _ _ = true |- _ => apply Qle_bool_iff in H
    | H : Qle_bool _ _ = false |- _ => apply Qle_bool_false in H
    end;
  simpl.

(** A label is returned exactly on its band. *)
Ltac band :=
  split;
  [ intros Hlabel; first [ discriminate Hlabel | repeat split; lra ]
  | intros Hband; first [ reflexivity | exfalso; lra ] ].

(** C5. The five activity bands of [classify_activity_level], each closed
    below and open above. *)
Theorem activity_bands (z : Q) :
  ((classify_activity_level z).1 = "Extreme Light" ↔ z < -(3#2))
  ∧ ((classify_activity_level z).1 = "Light" ↔ -(3#2) <= z ∧ z < -(1#2))
  ∧ ((classify_activity_level z).1 = "Neutral" ↔ -(1#2) <= z ∧ z < 1#2)
  ∧ ((classify_activity_level z).1 = "Elevated" ↔ 1#2 <= z ∧ z < 3#2)
  ∧ ((classify_activity_level z).1 = "Crowded" ↔ 3#2 <= z)
  ∧ (classify_activity_level (-(3#2))).1 = "Light"
  ∧ (classify_activity_level (3#2)).1 = "Crowded".
Proof.
  split; [|split; [|split; [|split; [|split; [|by split]]]]];
    unfold classify_activity_level; split_tests; band.
Qed.

(** C4, as stated, fails at the upper threshold: a ratio of exactly 1.5
    is labelled "Uptrend". *)
Lemma ratio_three_halves_is_uptrend :
  ¬ ((ma_ratio_signal (3#2)).1 = "Strong Uptrend" ↔ 3#2 <= 3#2).
Proof. intros [_ H]. specialize (H ltac:(lra)). discriminate H. Qed.

(** C4, amended. The four momentum bands of [display_ma_ratio_metrics]:
    "Strong Uptrend" strictly above 1.5, "Uptrend" from 1.0 to 1.5 with
    both ends, "Downtrend" from 0.5 up to 1.0, "Strong Downtrend" below
    0.5.  The statistics table and the report table of multi_security.py
    cut at the same thresholds and write "Strong Up" and "Strong Down"
    for the outer bands. *)
Theorem momentum_bands (r : Q) :
  ((ma_ratio_signal r).1 = "Strong Downtrend" ↔ r < 1#2)
  ∧ ((ma_ratio_signal r).1 = "Downtrend" ↔ 1#2 <= r ∧ r < 1)
  ∧ ((ma_ratio_signal r).1 = "Uptrend" ↔ 1 <= r ∧ r <= 3#2)
  ∧ ((ma_ratio_signal r).1 = "Strong Uptrend" ↔ 3#2 < r)
  ∧ (ma_ratio_signal (3#2)).1 = "Uptrend"
  ∧ (ma_ratio_signal 1).1 = "Uptrend"
  ∧ (ma_ratio_signal (1#2)).1 = "Downtrend"
  ∧ (statistics_ma_signal r = "Strong Down" ↔ r < 1#2)
  ∧ (statistics_ma_signal r = "Downtrend" ↔ 1#2 <= r ∧ r < 1)
  ∧ (statistics_ma_signal r = "Uptrend" ↔ 1 <= r ∧ r <= 3#2)
  ∧ (statistics_ma_signal r = "Strong Up" ↔ 3#2 < r)
  ∧ (table_ma_signal r = "⚠️ Strong Down" ↔ r < 1#2)
  ∧ (table_ma_signal r = "📉 Downtrend" ↔ 1#2 <= r ∧ r < 1)
  ∧ (table_ma_signal r = "📈 Uptrend" ↔ 1 <= r ∧ r <= 3#2)
  ∧ (table_ma_signal r = "🚀 Strong Up" ↔ 3#2 < r).
Proof.
  repeat match goal with |- _ ∧ _ => split end;
    try reflexivity;
    unfold ma_ratio_signal, statistics_ma_signal, table_ma_signal;
    split_tests; band.
Qed.

(** *** Trailing windows *)

Lemma window_at_nonempty w i (l : list Q) :
  (0 < w)%nat → (i < length l)%nat → window_at w i l ≠ [].
Proof.
  intros Hw Hi Hnil. apply (f_equal length) in Hnil. revert Hnil.
  unfold window_at. rewrite length_take, length_drop. simpl. lia.
Qed.

Lemma Forall_window_at (P : Q → Prop) w i l :
  Forall P l → Forall P (window_at w i l).
Proof. intros Hl. unfold window_at. by apply Forall_take, Forall_drop. Qed.

Lemma lookup_rolling stat w (l : list Q) i :
  (i < length l)%nat → rolling stat w l !! i = Some (stat (window_at w i l)).
Proof.
  intros Hi. unfold rolling. by rewrite list_lookup_fmap, lookup_seq_lt.
Qed.

Lemma length_rolling stat w (l : list Q) : length (rolling stat w l) = length l.
Proof. unfold rolling. by rewrite length_fmap, length_seq. Qed.

Lemma mean_nonempty (l : list Q) : l ≠ [] → mean l = Num (meanQ l).
Proof. by destruct l. Qed.



(** *** Percentile *)

Lemma of_nat_le (a b : nat) : (a ≤ b)%nat → of_nat a <= of_nat b.
Proof. intros Hab. unfold of_nat. rewrite <- Zle_Qle. lia. Qed.

Lemma of_nat_pos (n : nat) : (0 < n)%nat → 0 < of_nat n.
Proof.
  intros Hn. unfold of_nat. change 0 with (inject_Z 0).
  rewrite <- Zlt_Qlt. lia.
Qed.

Lemma count_le_mono (values : list Q) (x y : Q) :
  x <= y →
  (length (List.filter (λ v, Qle_bool v x) values)
   ≤ length (List.filter (λ v, Qle_bool v y) values))%nat.
Proof.
  intros Hxy. induction values as [|v values IH]; simpl; [done|].
  destruct (Qle_bool v x) eqn:Hvx.
  - apply Qle_bool_iff in Hvx.
    assert (Hvy : Qle_bool v y = true)
      by (apply Qle_bool_iff; by apply (Qle_trans _ x)).
    rewrite Hvy. simpl. lia.
  - destruct (Qle_bool v y); simpl; lia.
Qed.

Lemma count_le_length (values : list Q) (x : Q) :
  (length (List.filter (λ v, Qle_bool v x) values) ≤ length values)%nat.
Proof.
  induction values as [|v values IH]; simpl; [done|].
  destruct (Qle_bool v x); simpl; lia.
Qed.

Lemma sorted_lookup_le (values : list Q) (i j : nat) (x y : Q) :
  Sorted Qle values → (i ≤ j)%nat →
  values !! i = Some x → values !! j = Some y → x <= y.
Proof.
  intros Hs. apply Sorted_StronglySorted in Hs; [|exact Qle_trans].
  revert i j. induction Hs as [|a l Hs IH Hall]; intros i j Hij Hi Hj.
  - by rewrite lookup_nil in Hi.
  - destruct i as [|i], j as [|j]; simpl in *.
    + injection Hi as <-. injection Hj as <-. apply Qle_refl.
    + injection Hi as <-.
      by apply (proj1 (Forall_lookup _ _) Hall j y).
    + lia.
    + apply (IH i j); [lia | done..].
Qed.

(** C9. On a series sorted in ascending order the percentile of the
    element at index [i] does not decrease with [i], and it lies between
    0 and 100. *)
Theorem percentile_monotone (values : list Q) (i j : nat) (x y : Q) :
  Sorted Qle values → (i ≤ j)%nat →
  values !! i = Some x → values !! j = Some y →
  percentile values x <= percentile values y
  ∧ 0 <= percentile values x ∧ percentile values x <= 100.
Proof.
  intros Hs Hij Hi Hj.
  pose proof (sorted_lookup_le values i j x y Hs Hij Hi Hj) as Hxy.
  assert (Hlen : (0 < length values)%nat).
  { apply lookup_lt_Some in Hi. lia. }
  pose proof (of_nat_pos _ Hlen) as Hpos.
  assert (Hinv : 0 <= / of_nat (length values)).
  { apply Qinv_le_0_compat. lra. }
  unfold percentile, Qdiv. repeat split.
  - apply Qmult_le_compat_r; [|lra].
    apply Qmult_le_compat_r; [|done].
    apply of_nat_le, count_le_mono, Hxy.
  - apply Qmult_le_0_compat; [|lra].
    apply Qmult_le_0_compat; [|done].
    apply (of_nat_le 0), Nat.le_0_l.
  - assert (Hfrac : of_nat (length (List.filter (λ v, Qle_bool v x) values))
                    / of_nat (length values) <= 1).
    { apply Qle_shift_div_r; [done|]. rewrite Qmult_1_l.
      apply of_nat_le, count_le_length. }
    unfold Qdiv in Hfrac. lra.
Qed.

Lemma percentile_monotone_witness :
  percentile [1; 2; 2; 5] 2 <= percentile [1; 2; 2; 5] 5
  ∧ 0 <= percentile [1; 2; 2; 5] 2 ∧ percentile [1; 2; 2; 5] 2 <= 100.
Proof.
  apply (percentile_monotone [1; 2; 2; 5] 1 3 2 5);
    [ repeat constructor; discriminate | lia | reflexivity | reflexivity ].
Defined.

(** *** Z-scores of a constant series *)

Lemma of_nat_S (n : nat) : of_nat (S n) == of_nat n + 1.
Proof.
  unfold of_nat. rewrite Nat2Z.inj_succ, <- Z.add_1_r, inject_Z_plus.
  reflexivity.
Qed.

Lemma sumQ_zero (l : list Q) : Forall (λ t, t == 0) l → sumQ l == 0.
Proof.
  induction 1 as [|t l Ht _ IH]; simpl; [reflexivity|].
  rewrite Ht, IH. ring.
Qed.

Lemma sumQ_const (c : Q) (l : list Q) :
  Forall (λ x, x == c) l → sumQ l == of_nat (length l) * c.
Proof.
  induction 1 as [|x l Hx _ IH]; simpl length.
  - simpl. unfold of_nat. simpl. ring.
  - change (sumQ (x :: l)) with (x + sumQ l).
    rewrite of_nat_S, Hx, IH. ring.
Qed.

Lemma meanQ_const (c : Q) (l : list Q) :
  Forall (λ x, x == c) l → l ≠ [] → meanQ l == c.
Proof.
  intros Hc Hne. unfold meanQ. rewrite (sumQ_const c l Hc), Qmult_comm.
  apply Qdiv_mult_l.
  assert (0 < of_nat (length l)); [|lra].
  apply of_nat_pos. destruct l; [done | simpl; lia].
Qed.

Lemma sample_var_const (c : Q) (l : list Q) :
  Forall (λ x, x == c) l → sample_var l == 0.
Proof.
  intros Hc. unfold sample_var, Qdiv.
  rewrite sumQ_zero; [ring|].
  destruct l as [|x0 l0]; [constructor|].
  pose proof (meanQ_const c (x0 :: l0) Hc ltac:(done)) as Hm.
  apply Forall_fmap. eapply Forall_impl; [exact Hc|].
  intros x Hx. simpl. rewrite Hx, Hm. ring.
Qed.

Section ConstantSeries.
Variable sqrtQ : Q → Q.
Hypothesis sqrtQ_zero : ∀ q, q == 0 → sqrtQ q == 0.

Lemma std_const (c : Q) (l : list Q) :
  Forall (λ x, x == c) l →
  std sqrtQ l = NaN ∨ ∃ s, std sqrtQ l = Num s ∧ s == 0.
Proof.
  intros Hc. unfold std. destruct (length l <? 2)%nat; [by left|].
  right. eexists. split; [done|].
  by apply sqrtQ_zero, (sample_var_const c).
Qed.

(** One cell of the rolling branch: the value and the window hold the
    same number. *)
Lemma z_cell_const (c x : Q) (win : list Q) :
  x == c → Forall (λ v, v == c) win → win ≠ [] →
  fillna 0 (cell_div (cell_sub (Num x) (mean win)) (std sqrtQ win)) = Num 0.
Proof.
  intros Hx Hc Hne. rewrite (mean_nonempty win Hne). simpl cell_sub.
  destruct (std_const c win Hc) as [-> | (s & -> & Hs)]; [done|].
  simpl. apply Qeq_bool_iff in Hs. rewrite Hs.
  assert (Hnum : Qeq_bool (x - meanQ win) 0 = true).
  { apply Qeq_bool_iff. rewrite Hx, (meanQ_const c win Hc Hne). ring. }
  by rewrite Hnum.
Qed.

(** What the guard [std_val == 0] is there for.  In exact arithmetic a
    series all of whose values equal [c] has deviation zero, and
    [calculate_z_scores] returns zeros, one per value, whatever the
    length and the window.  Binary64 does not keep this: see
    [Binary64Facts]. *)
Lemma z_scores_constant_exact (c : Q) (data_series : list Q)
    (window : option nat) :
  Forall (λ x, x == c) data_series →
  calculate_z_scores sqrtQ data_series window =
  replicate (length data_series) (Num 0).
Proof.
  intros Hc. unfold calculate_z_scores.
  destruct (length data_series <=? 1)%nat eqn:Hlen; [done|].
  apply Nat.leb_gt in Hlen.
  destruct (use_window window (length data_series)) as [w|] eqn:Hw.
  - assert (Hpos : (0 < w)%nat).
    { unfold use_window in Hw. destruct window as [w'|]; [|done].
      destruct (w' =? 0)%nat eqn:Hw0; simpl in Hw; [done|].
      apply Nat.eqb_neq in Hw0.
      destruct (w' <=? length data_series)%nat; [|done].
      injection Hw as <-. lia. }
    apply list_eq. intros i.
    rewrite list_lookup_fmap, !lookup_zip_with, list_lookup_fmap.
    destruct (data_series !! i) as [x|] eqn:Hx.
    + pose proof (lookup_lt_Some _ _ _ Hx) as Hi.
      rewrite !lookup_rolling, lookup_replicate_2 by done. simpl.
      f_equal. apply (z_cell_const c).
      * by apply (proj1 (Forall_lookup _ _) Hc i x).
      * by apply Forall_window_at.
      * by apply window_at_nonempty.
    + simpl. symmetry. apply lookup_replicate_None.
      by apply lookup_ge_None.
  - destruct (std_const c data_series Hc) as [Hnan | (s & Hs & Hs0)].
    + unfold std in Hnan.
      destruct (length data_series <? 2)%nat eqn:Hlt; [|done].
      apply Nat.ltb_lt in Hlt. lia.
    + rewrite Hs. simpl. apply Qeq_bool_iff in Hs0. by rewrite Hs0.
Qed.

End ConstantSeries.

Lemma sqrt_approx_zero (q : Q) : q == 0 → Samples.sqrt_approx q == 0.
Proof.
  destruct q as [n d]. unfold Qeq, Samples.sqrt_approx. simpl.
  rewrite !Z.mul_1_r. intros ->. reflexivity.
Qed.

Example z_scores_constant_exact_fives :
  calculate_z_scores Samples.sqrt_approx [5; 5; 5] (Some 2%nat) =
    [Num 0; Num 0; Num 0]
  ∧ calculate_z_scores Samples.sqrt_approx [7] (Some 21%nat) = [Num 0]
  ∧ calculate_z_scores Samples.sqrt_approx [5; 5; 5] None =
    [Num 0; Num 0; Num 0].
Proof.
  split; [|split].
  - apply (z_scores_constant_exact Samples.sqrt_approx sqrt_approx_zero 5
             [5; 5; 5] (Some 2%nat)).
    repeat constructor.
  - apply (z_scores_constant_exact Samples.sqrt_approx sqrt_approx_zero 7
             [7] (Some 21%nat)).
    repeat constructor.
  - apply (z_scores_constant_exact Samples.sqrt_approx sqrt_approx_zero 5
             [5; 5; 5] None).
    repeat constructor.
Qed.

End StatsFacts.

(** ** The z-scores of a constant series in binary64 *)

Module Binary64Facts.
Import PrimFloat Binary64.

(** C3 fails on the program.  The series [[0.1, 0.1, 0.1]] is constant.
    Its mean comes out as [0.10000000000000002] and its deviation as
    [1.6996749443881478e-17]: the guard [std_val == 0] is not taken, and
    every z-score is [-0.8164965809277261], with no window and with the
    window of 21 alike, which is longer than the series.  Where the mean
    is exact the guard is taken: [[0.5, 0.5, 0.5]] gives zeros, and so
    does a single value. *)
Theorem z_scores_tenths :
  let series := [tenth; tenth; tenth] in
  let z := (-0x1.a20bd700c2c3fp-1)%float in
  mean series = Some 0x1.999999999999bp-4%float
  ∧ std series = Some 0x1.3988e1409212ep-56%float
  ∧ calculate_z_scores series None = Some [z; z; z]
  ∧ calculate_z_scores series (Some 21%nat) = Some [z; z; z]
  ∧ PrimFloat.eqb z 0%float = false
  ∧ calculate_z_scores [0.5%float; 0.5%float; 0.5%float] None
    = Some [0%float; 0%float; 0%float]
  ∧ calculate_z_scores [tenth] (Some 21%nat) = Some [0%float].
Proof. vm_compute. repeat split. Qed.

End Binary64Facts.

(** ** The retail fetch loop *)

Module FetchFacts.
Import Flow Fetch.

Section FetchLoop.
Context {K : Type} `{Countable K} {V : Type}.

Lemma try_update_nothing (out : http_outcome K V) acc :
  brings_nothing out → try_update out acc = acc.
Proof.
  destruct out as [|status_code body]; simpl; [done|].
  intros Hnothing. case_decide as Hstatus; [|done].
  destruct Hnothing as [Hne|Hbody]; [done|].
  destruct body as [|data|elements|]; [done| | |done].
  - rewrite Hbody. apply (left_id_L ∅ (∪)).
  - by destruct elements as [|[[k v]|] rest].
Qed.

Lemma multi_loop_nothing (net : network K V) tickers n :
  (∀ k rq, brings_nothing (net k rq)) →
  foldl (combined_step_multi net) (n, ∅) tickers
  = ((n + length tickers)%nat, ∅).
Proof.
  intros Hnet. revert n.
  induction tickers as [|t tickers IH]; intros n; simpl.
  - by rewrite Nat.add_0_r.
  - rewrite try_update_nothing by apply Hnet. rewrite IH. f_equal. lia.
Qed.

Lemma single_loop_nothing (net : network K V) ticker_list n :
  (∀ k rq, brings_nothing (net k rq)) →
  foldl (combined_step_single net) (n, ∅, ∅, ∅) ticker_list
  = ((n + 3 * length ticker_list)%nat, ∅, ∅, ∅).
Proof.
  intros Hnet. revert n.
  induction ticker_list as [|t ticker_list IH]; intros n; simpl.
  - by rewrite Nat.add_0_r.
  - rewrite !try_update_nothing by apply Hnet. rewrite IH.
    do 3 f_equal. lia.
Qed.

(** C10. With a token configured, the ['combined'] fetch of either
    analyzer answers "success" whatever the requests did; and when every
    request brought nothing (it raised, was refused, did not parse, or
    held nothing that [update] can store) the data returned are the empty
    mappings, whichever of these happened. *)
Theorem fetch_combined_always_success (token : option string)
    (net : network K V) (tickers : list string) :
  no_token token = false →
  (fetch_stock_flow_data_multi token net tickers "combined").2 = "success"
  ∧ (fetch_stock_flow_data_single token net tickers "combined").2 = "success"
  ∧ ((∀ k rq, brings_nothing (net k rq)) →
       fetch_stock_flow_data_multi token net tickers "combined"
       = ({["combined_data" := ∅]}, "success")
       ∧ fetch_stock_flow_data_single token net tickers "combined"
         = (Sections (<["combined_data" := ∅]>
                        (<["buy_data" := ∅]> {["sell_data" := ∅]})),
            "success")).
Proof.
  intros Htoken.
  unfold fetch_stock_flow_data_multi, fetch_stock_flow_data_single.
  rewrite Htoken, String.eqb_refl. split; [|split].
  - by destruct (foldl _ _ tickers) as [n combined_data].
  - by destruct (foldl _ _ tickers) as [[[n combined_data] buy_data] sell_data].
  - intros Hnet.
    by rewrite (multi_loop_nothing net tickers 0 Hnet),
               (single_loop_nothing net tickers 0 Hnet).
Qed.

End FetchLoop.

(** A body that is an array of pairs does bring data: the pairs before
    the first element that is not one are stored. *)
Example fetch_array_of_pairs :
  fetch_stock_flow_data_multi (Some "secret") Samples.network_pairs
    ["AAPL"; "MSFT"] "combined"
  = ({["combined_data" :=
         {["AAPL" := JDict Samples.call_dates_example]}]}, "success").
Proof. reflexivity. Qed.

Lemma fetch_combined_always_success_witness :
  (fetch_stock_flow_data_multi (Some "secret") Samples.network_down
     ["AAPL"; "MSFT"] "combined").2 = "success"
  ∧ fetch_stock_flow_data_multi (Some "secret") Samples.network_down
      ["AAPL"; "MSFT"] "combined"
    = fetch_stock_flow_data_multi (Some "secret") Samples.network_empty
        ["AAPL"; "MSFT"] "combined".
Proof.
  destruct (fetch_combined_always_success (Some "secret")
              Samples.network_down ["AAPL"; "MSFT"] eq_refl)
    as (Hstatus & _ & Hdown).
  destruct (fetch_combined_always_success (Some "secret")
              Samples.network_empty ["AAPL"; "MSFT"] eq_refl)
    as (_ & _ & Hempty).
  split; [exact Hstatus|].
  rewrite (proj1 (Hdown (λ _ _, I))).
  rewrite (proj1 (Hempty (λ _ _, or_intror eq_refl))).
  reflexivity.
Defined.

End FetchFacts.

(** ** Reconciliation across keys and tickers *)

Module ReconcileFacts.
Import Text Match Flow Reconcile FlowFacts.

Section Reconciled.
Context {V : Type} `{!Number V}.

Lemma matching_values_snoc matches (data : named_series V) item d :
  matching_values matches (data ++ [item])%list d =
  (matching_values matches data d ++ matching_values matches [item] d)%list.
Proof. unfold matching_values. apply bind_app. Qed.

Lemma lookup_aggregate matches (data : named_series V) d :
  aggregate add_value matches data !! d =
    match matching_values matches data d with
    | [] => None
    | vs => Some (foldl num_add num_zero vs)
    end.
Proof.
  induction data as [|[k jv] data IH] using rev_ind; [done|].
  rewrite matching_values_snoc. unfold aggregate in *.
  rewrite foldl_snoc. unfold matching_values at 2. simpl.
  rewrite (right_id_L [] (++)%list).
  destruct jv as [dv|]; [destruct (matches k)|];
    try (by rewrite (right_id_L [] (++)%list)).
  rewrite lookup_add_values. unfold get. rewrite IH.
  destruct (dv !! d) as [v|]; simpl;
    [|by rewrite (right_id_L [] (++)%list)].
  destruct (matching_values matches data d) as [|v0 vs]; simpl; [done|].
  by rewrite foldl_snoc.
Qed.

Lemma aggregate_unmatched step matches (data : named_series V) :
  unmatched matches data → aggregate step matches data = ∅.
Proof.
  unfold unmatched, aggregate. intros Hun.
  induction data as [|[k jv] data IH] using rev_ind; [done|].
  rewrite foldl_snoc. simpl.
  assert (Hdata : ∀ k' dv, (k', JDict dv) ∈ data → matches k' = false).
  { intros k' dv Hin. apply (Hun k' dv). rewrite elem_of_app. by left. }
  destruct jv as [dv|]; [|by apply IH].
  rewrite (Hun k dv); [by apply IH|].
  rewrite elem_of_app, list_elem_of_singleton. by right.
Qed.

Lemma first_match_unmatched matches (data : named_series V) :
  unmatched matches data → first_match matches data = ∅.
Proof.
  unfold unmatched. intros Hun.
  induction data as [|[k jv] data IH]; [done|]. simpl.
  assert (Hdata : ∀ k' dv, (k', JDict dv) ∈ data → matches k' = false).
  { intros k' dv Hin. apply (Hun k' dv). by apply list_elem_of_further. }
  destruct jv as [dv|].
  - rewrite (Hun k dv); [by apply IH | apply list_elem_of_here].
  - destruct (matches k); by apply IH.
Qed.

Lemma first_match_first matches (before after : named_series V) k dv :
  unmatched matches before → matches k = true →
  first_match matches (before ++ (k, JDict dv) :: after)%list = dv.
Proof.
  unfold unmatched. intros Hun Hk.
  induction before as [|[k0 jv0] before IH]; simpl; [by rewrite Hk|].
  assert (Hrest : first_match matches
                    (before ++ (k, JDict dv) :: after)%list = dv).
  { apply IH. intros k' dv' Hin. apply (Hun k' dv').
    by apply list_elem_of_further. }
  destruct jv0 as [dv0|].
  - by rewrite (Hun k0 dv0) by apply list_elem_of_here.
  - by destruct (matches k0).
Qed.

(** [first_match] finds the retail dictionary, and nothing else is one. *)
Lemma first_match_source matches (data : named_series V) :
  retail_source matches data (first_match matches data).
Proof.
  unfold retail_source, unmatched.
  induction data as [|[k jv] data IH]; simpl.
  - right. split; [|done]. intros k dv Hin. by apply elem_of_nil in Hin.
  - remember (first_match matches data) as retail eqn:Hretail.
    assert (Hskip : (matches k = false ∨ jv = JOther) →
      (∃ before k0 after,
         (k, jv) :: data = (before ++ (k0, JDict retail) :: after)%list
         ∧ matches k0 = true
         ∧ ∀ k' dv, (k', JDict dv) ∈ before → matches k' = false)
      ∨ ((∀ k' dv, (k', JDict dv) ∈ (k, jv) :: data → matches k' = false)
         ∧ retail = ∅)).
    { intros Hhead.
      assert (Hk : ∀ dv, jv = JDict dv → matches k = false).
      { intros dv ->. by destruct Hhead. }
      destruct IH as [(before & k0 & after & Heq & Hk0 & Hun)|[Hun Hempty]].
      - left. exists ((k, jv) :: before), k0, after.
        split; [by rewrite Heq|]. split; [done|].
        intros k' dv Hin. apply elem_of_cons in Hin as [[= -> <-]|Hin];
          [by apply (Hk dv) | by apply (Hun k' dv)].
      - right. split; [|done].
        intros k' dv Hin. apply elem_of_cons in Hin as [[= -> <-]|Hin];
          [by apply (Hk dv) | by apply (Hun k' dv)]. }
    destruct (matches k) eqn:Hk; [|by apply Hskip; left].
    destruct jv as [dv|]; [|by apply Hskip; right].
    left. exists [], k, data. split; [done|]. split; [done|].
    intros k' dv' Hin. by apply elem_of_nil in Hin.
Qed.

Lemma retail_source_unique matches (data : named_series V) retail :
  retail_source matches data retail → retail = first_match matches data.
Proof.
  intros [(before & k & after & -> & Hk & Hun)|[Hun ->]].
  - by rewrite first_match_first.
  - by rewrite first_match_unmatched.
Qed.

Lemma get_aggregate matches (data : named_series V) d :
  get (aggregate add_value matches data) d
  = total (matching_values matches data d).
Proof.
  unfold get, total. rewrite lookup_aggregate.
  by destruct (matching_values matches data d).
Qed.

Lemma holds_date_aggregate matches (data : named_series V) d :
  d ∈ dom (aggregate add_value matches data) ↔ holds_date matches data d.
Proof.
  rewrite elem_of_dom_aggregate. unfold holds_date.
  by setoid_rewrite elem_of_dom.
Qed.

(** X1. The value a reconciled options mapping holds for a date is the
    left-to-right sum, from [0], of the values stored for that date under
    every matching key; the date is present exactly when there is at least
    one such value.  This holds for the accumulation of
    [calculate_combined_flow_multi], of [calculate_net_premium_multi] and
    of the single-security charts alike. *)
Theorem reconciled_value (data : named_series V) (ticker d : string) :
  let multi := matching_values (λ k, multi_options_match k ticker) data d in
  let single := matching_values (λ k, single_options_match k ticker) data d in
  get (options_records_multi data ticker) d = foldl num_add num_zero multi
  ∧ (d ∈ dom (options_records_multi data ticker) ↔ multi ≠ [])
  ∧ get (ticker_data_multi data ticker) d = foldl num_add num_zero multi
  ∧ (d ∈ dom (ticker_data_multi data ticker) ↔ multi ≠ [])
  ∧ get (options_records_single data ticker) d
    = foldl num_add num_zero single
  ∧ (d ∈ dom (options_records_single data ticker) ↔ single ≠ []).
Proof.
  intros multi single.
  unfold options_records_multi, ticker_data_multi, options_records_single.
  rewrite aggregate_init_eq.
  unfold get. rewrite !elem_of_dom, !lookup_aggregate.
  fold multi single.
  destruct multi, single; simpl; repeat split;
    try done; try (by intros [? ?]); try (by eauto).
Qed.

(** X2. A ticker under which no series holds a dictionary contributes no
    record at all, to the combined flow and to the net premium: the
    calculation returns the empty list rather than failing. *)
Theorem nothing_matched_no_records
    (retail_flow small_call small_put large_call large_put : named_series V)
    (ticker_list : list string) :
  (∀ t, t ∈ ticker_list →
     unmatched (λ k, multi_retail_match k t) retail_flow
     ∧ unmatched (λ k, multi_options_match k t) small_call
     ∧ unmatched (λ k, multi_options_match k t) small_put
     ∧ unmatched (λ k, multi_options_match k t) large_call
     ∧ unmatched (λ k, multi_options_match k t) large_put) →
  calculate_combined_flow_multi retail_flow small_call small_put
    large_call large_put ticker_list = []
  ∧ calculate_net_premium_multi small_call small_put ticker_list = []
  ∧ calculate_net_premium_multi large_call large_put ticker_list = [].
Proof.
  intros Hun.
  unfold calculate_combined_flow_multi, calculate_net_premium_multi.
  induction ticker_list as [|t ticker_list IH]; [done|].
  destruct (Hun t) as (Hr & Hsc & Hsp & Hlc & Hlp); [apply list_elem_of_here|].
  destruct IH as (IH1 & IH2 & IH3).
  { intros t' Ht'. apply Hun. by apply list_elem_of_further. }
  cbn [mbind list_bind]. rewrite IH1, IH2, IH3.
  unfold combined_flow_of_ticker, net_premium_records, retail_records_multi,
    options_records_multi, ticker_data_multi.
  rewrite (first_match_unmatched _ _ Hr).
  rewrite !(aggregate_unmatched _ _ _ Hsc), !(aggregate_unmatched _ _ _ Hsp).
  rewrite !(aggregate_unmatched _ _ _ Hlc), !(aggregate_unmatched _ _ _ Hlp).
  rewrite dom_empty_L, !(left_id_L ∅ (∪)), elements_empty. done.
Qed.

(** X3. The combined flow is built from the same net premiums the report
    tabulates: for a record of [calculate_combined_flow_multi], whenever
    [calculate_net_premium_multi] has a record of the same ticker and date
    for the small (large) bucket, its value is the small (large) term of
    the combined value. *)
Theorem combined_uses_net_premiums
    (retail_flow small_call small_put large_call large_put : named_series V)
    (ticker_list : list string) (r : combined_record V)
    (small large : net_record V) :
  r ∈ calculate_combined_flow_multi retail_flow small_call small_put
        large_call large_put ticker_list →
  small ∈ calculate_net_premium_multi small_call small_put ticker_list →
  large ∈ calculate_net_premium_multi large_call large_put ticker_list →
  nr_ticker small = cr_ticker r → nr_date small = cr_date r →
  nr_ticker large = cr_ticker r → nr_date large = cr_date r →
  cr_value r =
    num_add
      (num_add (get (retail_records_multi retail_flow (cr_ticker r))
                    (cr_date r))
               (nr_value small))
      (nr_value large).
Proof.
  unfold calculate_combined_flow_multi, calculate_net_premium_multi.
  rewrite !list_elem_of_bind.
  intros (t & Hr & _) (ts & Hs & _) (tl & Hl & _).
  apply list_elem_of_fmap in Hr as (d & -> & _).
  apply list_elem_of_fmap in Hs as (ds & -> & _).
  apply list_elem_of_fmap in Hl as (dl & -> & _).
  simpl. intros -> -> -> ->.
  unfold ticker_data_multi, options_records_multi.
  by rewrite !aggregate_init_eq.
Qed.

(** X4. The retail mapping of a ticker is the dictionary under the first
    matching key that holds one; later matching keys are not added to it
    (unlike the options mappings, which sum over all matching keys). *)
Theorem retail_first_match_wins
    (before after : named_series V) (k : string) (dv : gmap string V)
    (target : string) :
  unmatched (λ k', multi_retail_match k' target) before →
  unmatched (λ k', single_retail_match k' target) before →
  (multi_retail_match k target = true →
     retail_records_multi (before ++ (k, JDict dv) :: after)%list target = dv)
  ∧ (single_retail_match k target = true →
       retail_records_single (before ++ (k, JDict dv) :: after)%list target
       = dv).
Proof.
  unfold retail_records_multi, retail_records_single.
  assert (Hfirst : ∀ matches, unmatched matches before →
            matches k = true →
            first_match matches (before ++ (k, JDict dv) :: after)%list = dv).
  { intros matches Hun Hk. unfold unmatched in Hun.
    induction before as [|[k0 jv0] before IH]; simpl; [by rewrite Hk|].
    assert (Hrest : first_match matches
                      (before ++ (k, JDict dv) :: after)%list = dv).
    { apply IH. intros k' dv' Hin. apply (Hun k' dv').
      by apply list_elem_of_further. }
    destruct jv0 as [dv0|].
    - by rewrite (Hun k0 dv0) by apply list_elem_of_here.
    - by destruct (matches k0). }
  intros Hm Hs. split; intros Hk; by apply Hfirst.
Qed.

(** X5. Over a ticker list without repetition no two records of the
    combined flow, nor of the net premium, share both ticker and date. *)
Theorem one_record_per_ticker_and_date
    (retail_flow small_call small_put large_call large_put : named_series V)
    (ticker_list : list string) :
  NoDup ticker_list →
  NoDup ((λ r, (cr_ticker r, cr_date r)) <$>
           calculate_combined_flow_multi retail_flow small_call small_put
             large_call large_put ticker_list)
  ∧ NoDup ((λ r, (nr_ticker r, nr_date r)) <$>
             calculate_net_premium_multi small_call small_put ticker_list).
Proof.
  unfold calculate_combined_flow_multi, calculate_net_premium_multi.
  induction 1 as [|t ticker_list Hnotin Hnodup [IH1 IH2]];
    [split; constructor|].
  cbn [mbind list_bind]. rewrite !fmap_app. split.
  - apply NoDup_app. split; [|split; [|done]].
    + unfold combined_flow_of_ticker. rewrite <- list_fmap_compose.
      apply NoDup_fmap_2_strong; [|apply NoDup_elements].
      intros d1 d2 _ _ Heq. by injection Heq.
    + intros [t' d'] Hin1 Hin2.
      apply list_elem_of_fmap in Hin1 as (r1 & Heq1 & Hr1).
      apply list_elem_of_fmap in Hr1 as (d1 & -> & _).
      apply list_elem_of_fmap in Hin2 as (r2 & Heq2 & Hr2).
      apply list_elem_of_bind in Hr2 as (t2 & Hr2 & Ht2).
      apply list_elem_of_fmap in Hr2 as (d2 & -> & _).
      simpl in *. congruence.
  - apply NoDup_app. split; [|split; [|done]].
    + unfold net_premium_records. rewrite <- list_fmap_compose.
      apply NoDup_fmap_2_strong; [|apply NoDup_elements].
      intros d1 d2 _ _ Heq. by injection Heq.
    + intros [t' d'] Hin1 Hin2.
      apply list_elem_of_fmap in Hin1 as (r1 & Heq1 & Hr1).
      apply list_elem_of_fmap in Hr1 as (d1 & -> & _).
      apply list_elem_of_fmap in Hin2 as (r2 & Heq2 & Hr2).
      apply list_elem_of_bind in Hr2 as (t2 & Hr2 & Ht2).
      apply list_elem_of_fmap in Hr2 as (d2 & -> & _).
      simpl in *. congruence.
Qed.

End Reconciled.

(** Walk a literal series to show that a rule matches none of its
    dictionaries. *)
Ltac none_matches :=
  intros ? ? Hin;
  repeat (apply elem_of_cons in Hin as [Hin|Hin];
          [first [ discriminate Hin
                 | injection Hin as -> _; reflexivity ] |]);
  by apply elem_of_nil in Hin.

Lemma reconciled_value_witness :
  get (options_records_multi
         (Samples.calls_example ++ Samples.calls_example)%list "AAPL")
      "2024-01-02"
  = (0 + 30 + 30)%Q.
Proof.
  pose proof (@reconciled_value Q Q_number
                (Samples.calls_example ++ Samples.calls_example)%list
                "AAPL" "2024-01-02") as H.
  simpl in H. exact (proj1 H).
Defined.

Lemma nothing_matched_no_records_witness :
  calculate_combined_flow_multi Samples.retail_example
    Samples.calls_example Samples.puts_example
    Samples.calls_example Samples.puts_example ["TSLA"; "NVDA"] = [].
Proof.
  apply (@nothing_matched_no_records Q Q_number).
  intros t Ht.
  apply elem_of_cons in Ht as [->|Ht];
    [|apply elem_of_cons in Ht as [->|Ht]; [|by apply elem_of_nil in Ht]];
    repeat split; none_matches.
Defined.

Lemma combined_uses_net_premiums_witness :
  ((-50 + (30 - 0)) + (30 - 0))%Q
  = (get (retail_records_multi Samples.retail_example "AAPL") "2024-01-02"
     + (30 - 0) + (30 - 0))%Q.
Proof.
  apply (@combined_uses_net_premiums Q Q_number
           Samples.retail_example
           Samples.calls_example Samples.puts_example
           Samples.calls_example Samples.puts_example ["AAPL"]
           {| cr_date := "2024-01-02"; cr_ticker := "AAPL";
              cr_value := ((-50 + (30 - 0)) + (30 - 0))%Q |}
           Samples.call_only_record Samples.call_only_record);
    try reflexivity; vm_compute; repeat constructor.
Defined.

Lemma retail_first_match_wins_witness :
  retail_records_multi
    ([("MSFT", JDict {["2024-01-02" := 7%Q]}); ("aapl", JOther)]
     ++ ("aapl", JDict Samples.call_dates_example)
        :: [("AAPL", JDict Samples.put_dates_example)])%list "AAPL"
  = Samples.call_dates_example.
Proof.
  apply (@retail_first_match_wins Q
           [("MSFT", JDict {["2024-01-02" := 7%Q]}); ("aapl", JOther)]
           [("AAPL", JDict Samples.put_dates_example)]
           "aapl" Samples.call_dates_example "AAPL");
    [none_matches | none_matches | reflexivity].
Defined.

Lemma one_record_per_ticker_and_date_witness :
  NoDup ((λ r, (cr_ticker r, cr_date r)) <$>
           calculate_combined_flow_multi Samples.retail_example
             Samples.calls_example Samples.puts_example [] []
             ["AAPL"; "MSFT"]).
Proof.
  assert (Hlist : NoDup ["AAPL"; "MSFT"]).
  { apply NoDup_cons. split; [|apply NoDup_singleton].
    rewrite list_elem_of_singleton. discriminate. }
  exact (proj1 (@one_record_per_ticker_and_date Q Q_number
                  Samples.retail_example Samples.calls_example
                  Samples.puts_example [] [] ["AAPL"; "MSFT"] Hlist)).
Defined.

End ReconcileFacts.

(** ** Combined flow *)

Module CombinedFacts.
Import Text Match Flow Reconcile FlowFacts ReconcileFacts.

Section Combined.
Context {V : Type} `{!Number V}.

(** C2. What [calculate_combined_flow_multi] and
    [display_combined_flow_chart] emit, read off the five raw series.
    The retail component of a ticker is the dictionary under the first
    matching key; an options component holds, for a date, the values
    stored for it under every matching key.  A record is emitted exactly
    when its ticker is listed and its date appears in one of the five
    components, and its value is then
    [retail + (small_call - small_put) + (large_call - large_put)], where
    the retail term is the stored value, or [0] when the date is missing,
    and each options term is the sum from [0] of the values met, so [0]
    when there is none.  No law of the arithmetic is used: the equality
    is one of terms, whichever numbers carry the values. *)
Theorem combined_flow_records
    (retail_flow small_call small_put large_call large_put : named_series V)
    (ticker_list : list string) (ticker : string) :
  (∀ r : combined_record V,
     r ∈ calculate_combined_flow_multi retail_flow small_call small_put
           large_call large_put ticker_list
     ↔ cr_ticker r ∈ ticker_list
       ∧ ∃ retail,
           retail_source (λ k, multi_retail_match k (cr_ticker r))
             retail_flow retail
           ∧ (is_Some (retail !! cr_date r)
              ∨ holds_date (λ k, multi_options_match k (cr_ticker r))
                  small_call (cr_date r)
              ∨ holds_date (λ k, multi_options_match k (cr_ticker r))
                  small_put (cr_date r)
              ∨ holds_date (λ k, multi_options_match k (cr_ticker r))
                  large_call (cr_date r)
              ∨ holds_date (λ k, multi_options_match k (cr_ticker r))
                  large_put (cr_date r))
           ∧ let values data :=
               matching_values (λ k, multi_options_match k (cr_ticker r))
                 data (cr_date r) in
             cr_value r =
               num_add
                 (num_add (default num_zero (retail !! cr_date r))
                    (num_sub (total (values small_call))
                             (total (values small_put))))
                 (num_sub (total (values large_call))
                          (total (values large_put))))
  ∧ (∀ r : chart_record V,
       r ∈ combined_flow_chart_records retail_flow small_call small_put
             large_call large_put ticker
       ↔ ∃ retail,
           retail_source (λ k, single_retail_match k ticker)
             retail_flow retail
           ∧ (is_Some (retail !! ch_date r)
              ∨ holds_date (λ k, single_options_match k ticker)
                  small_call (ch_date r)
              ∨ holds_date (λ k, single_options_match k ticker)
                  small_put (ch_date r)
              ∨ holds_date (λ k, single_options_match k ticker)
                  large_call (ch_date r)
              ∨ holds_date (λ k, single_options_match k ticker)
                  large_put (ch_date r))
           ∧ let values data :=
               matching_values (λ k, single_options_match k ticker)
                 data (ch_date r) in
             ch_retail_flow r = default num_zero (retail !! ch_date r)
             ∧ ch_small_net r = num_sub (total (values small_call))
                                        (total (values small_put))
             ∧ ch_large_net r = num_sub (total (values large_call))
                                        (total (values large_put))
             ∧ ch_combined_flow r =
                 num_add (num_add (ch_retail_flow r) (ch_small_net r))
                         (ch_large_net r)).
Proof.
  split.
  - intros r. unfold calculate_combined_flow_multi.
    rewrite list_elem_of_bind. unfold combined_flow_of_ticker.
    unfold retail_records_multi, options_records_multi. split.
    + intros (t & Hr & Ht).
      apply list_elem_of_fmap in Hr as (d & -> & Hd). simpl.
      apply elem_of_elements in Hd.
      rewrite !elem_of_union, !holds_date_aggregate, elem_of_dom in Hd.
      split; [done|]. eexists. split; [apply first_match_source|].
      split; [tauto|]. by rewrite !get_aggregate.
    + intros (Ht & retail & Hsource & Hd & Hv).
      apply retail_source_unique in Hsource as ->.
      exists (cr_ticker r). split; [|done].
      apply list_elem_of_fmap. exists (cr_date r). split.
      * destruct r as [d t v]. simpl in *.
        by rewrite Hv, !get_aggregate.
      * apply elem_of_elements.
        rewrite !elem_of_union, !holds_date_aggregate, elem_of_dom. tauto.
  - intros r. unfold combined_flow_chart_records.
    unfold retail_records_single, options_records_single. split.
    + intros Hr. apply list_elem_of_fmap in Hr as (d & -> & Hd). simpl.
      apply elem_of_elements in Hd.
      rewrite !elem_of_union, !holds_date_aggregate, elem_of_dom in Hd.
      eexists. split; [apply first_match_source|].
      split; [tauto|]. by rewrite !get_aggregate.
    + intros (retail & Hsource & Hd & Hr & Hs & Hl & Hc).
      apply retail_source_unique in Hsource as ->.
      apply list_elem_of_fmap. exists (ch_date r). split.
      * destruct r as [d c rv sn ln]. simpl in *.
        by rewrite Hc, Hr, Hs, Hl, !get_aggregate.
      * apply elem_of_elements.
        rewrite !elem_of_union, !holds_date_aggregate, elem_of_dom. tauto.
Qed.

End Combined.

(** Two matching keys of the small calls hold the same date: both values
    enter the sum. *)
Lemma combined_flow_records_witness :
  {| cr_date := "2024-01-02"; cr_ticker := "AAPL";
     cr_value :=
       (-50 + (total [30; 30] - total []) + (total [] - total []))%Q |}
  ∈ calculate_combined_flow_multi Samples.retail_example
      (Samples.calls_example ++ Samples.calls_example)%list [] [] []
      ["AAPL"].
Proof.
  refine (proj2 (proj1 (@combined_flow_records Q Q_number
                          Samples.retail_example
                          (Samples.calls_example ++ Samples.calls_example)%list
                          [] [] [] ["AAPL"] "AAPL") _) _).
  split; [apply list_elem_of_here|].
  exists (<["2024-01-01" := 100%Q]> {["2024-01-02" := (-50)%Q]}).
  split; [|split].
  - left. exists [], "AAPL", []. split; [reflexivity|].
    split; [reflexivity|]. intros k dv Hin. by apply elem_of_nil in Hin.
  - left. by eexists.
  - reflexivity.
Defined.

End CombinedFacts.

(** ** More on the statistics *)

Module SummaryFacts.
Import Stats Summary StatsFacts.

Local Open Scope Q_scope.

Lemma length_z_scores sqrtQ (data_series : list Q) window :
  length (calculate_z_scores sqrtQ data_series window) = length data_series.
Proof.
  unfold calculate_z_scores.
  destruct (length data_series <=? 1)%nat; [apply length_replicate|].
  destruct (use_window window (length data_series)) as [w|].
  - rewrite length_fmap, !length_zip_with, length_fmap, !length_rolling. lia.
  - destruct (cell_is_zero _);
      [apply length_replicate | apply length_fmap].
Qed.

(** X6. Whatever the series and the window, [calculate_z_scores] returns
    one score per value; and whenever the rolling branch is taken (or the
    series has a single value) the first score is 0, the first window
    holding one observation only. *)
Theorem z_scores_shape (sqrtQ : Q → Q) (data_series : list Q)
    (window : option nat) :
  length (calculate_z_scores sqrtQ data_series window) = length data_series
  ∧ (data_series ≠ [] →
     use_window window (length data_series) ≠ None →
     calculate_z_scores sqrtQ data_series window !! 0%nat = Some (Num 0)).
Proof.
  split; [apply length_z_scores|].
  intros Hne Hw. unfold calculate_z_scores.
  destruct data_series as [|x data_series]; [done|].
  destruct (length (x :: data_series) <=? 1)%nat; [done|].
  destruct (use_window window (length (x :: data_series))) as [w|]; [|done].
  rewrite list_lookup_fmap, !lookup_zip_with, list_lookup_fmap.
  rewrite !lookup_rolling by (simpl; lia). simpl.
  unfold window_at. simpl.
  destruct w as [|w]; simpl; [done|].
  unfold std. simpl. done.
Qed.

Lemma z_scores_shape_witness :
  calculate_z_scores Samples.sqrt_approx [3; 9; 4] (Some 2%nat) !! 0%nat
  = Some (Num 0).
Proof.
  exact (proj2 (z_scores_shape Samples.sqrt_approx [3; 9; 4] (Some 2%nat))
               ltac:(discriminate) ltac:(discriminate)).
Defined.

(** *** The MA ratio *)

Lemma lookup_ma_ratio (values : list Q) (i : nat) :
  (i < length values)%nat →
  ma_ratio values !! i =
  Some (if Qeq_bool (trailing_mean 21 values i) 0 then Num 1
        else Num (trailing_mean 5 values i / trailing_mean 21 values i)).
Proof.
  intros Hi. unfold ma_ratio.
  rewrite list_lookup_fmap, lookup_zip_with, list_lookup_fmap.
  rewrite !lookup_rolling by done. simpl.
  rewrite !mean_nonempty by (apply window_at_nonempty; [lia | done]).
  fold (trailing_mean 5 values i). fold (trailing_mean 21 values i).
  simpl. destruct (Qeq_bool (trailing_mean 21 values i) 0) eqn:Heq; [done|].
  simpl. by rewrite Heq.
Qed.


(** X9. Over the first five values the two trailing windows hold the same
    observations, so the MA ratio is 1 there whatever the values are. *)
Theorem ma_ratio_warm_up (values : list Q) (i : nat) :
  (i < 5)%nat → (i < length values)%nat →
  ∃ q, ma_ratio values !! i = Some (Num q) ∧ q == 1.
Proof.
  intros Hi5 Hi. rewrite (lookup_ma_ratio values i Hi).
  assert (Hsame : trailing_mean 5 values i = trailing_mean 21 values i).
  { unfold trailing_mean, window_at.
    replace (S i - 5)%nat with 0%nat by lia.
    by replace (S i - 21)%nat with 0%nat by lia. }
  rewrite Hsame.
  destruct (Qeq_bool (trailing_mean 21 values i) 0) eqn:Heq.
  - by exists 1.
  - eexists. split; [done|]. apply Qeq_bool_neq in Heq.
    unfold Qdiv. by apply Qmult_inv_r.
Qed.

Lemma ma_ratio_warm_up_witness :
  ∃ q, ma_ratio [4; -7; 12; 0; 3; 8] !! 4%nat = Some (Num q) ∧ q == 1.
Proof.
  apply (ma_ratio_warm_up [4; -7; 12; 0; 3; 8] 4); simpl; lia.
Defined.

(** *** The percentile of the latest value *)

Lemma filter_length_all (p : Q → bool) (l : list Q) :
  length (List.filter p l) = length l ↔ Forall (λ v, p v = true) l.
Proof.
  induction l as [|v l IH]; simpl.
  - split; [constructor | done].
  - assert (Hle : (length (List.filter p l) ≤ length l)%nat).
    { clear. induction l as [|w l IH]; simpl; [done|].
      destruct (p w); simpl; lia. }
    destruct (p v) eqn:Hp; simpl.
    + split.
      * intros Hlen. constructor; [done|]. apply IH. lia.
      * intros Hall. inversion Hall; subst. f_equal. by apply IH.
    + split; [lia | intros Hall; inversion Hall; congruence].
Qed.

Lemma count_pos (p : Q → bool) (l : list Q) (x : Q) :
  x ∈ l → p x = true → (1 ≤ length (List.filter p l))%nat.
Proof.
  intros Hx Hp. induction Hx as [x l|x y l Hx IH]; simpl.
  - rewrite Hp. simpl. lia.
  - specialize (IH Hp). destruct (p y); simpl; lia.
Qed.

(** X11. The percentile shown for the latest value of a series is above
    0 (the value counts itself), at most 100, and equal to 100 exactly
    when no value of the series exceeds the latest one. *)
Theorem percentile_of_latest (values : list Q) (x : Q) :
  latest values = Some x →
  0 < percentile values x
  ∧ percentile values x <= 100
  ∧ (percentile values x == 100 ↔ Forall (λ v, v <= x) values).
Proof.
  intros Hlast. unfold latest in Hlast.
  assert (Hin : x ∈ values).
  { apply last_Some in Hlast as [l' ->]. rewrite elem_of_app.
    right. apply list_elem_of_here. }
  assert (Hlen : (0 < length values)%nat).
  { destruct values; [by apply elem_of_nil in Hin | simpl; lia]. }
  pose proof (of_nat_pos _ Hlen) as Hpos.
  set (c := length (List.filter (λ v, Qle_bool v x) values)).
  assert (Hc1 : (1 ≤ c)%nat).
  { apply (count_pos _ _ x Hin). apply Qle_bool_iff, Qle_refl. }
  assert (Hcn : (c ≤ length values)%nat) by apply count_le_length.
  assert (Hinv : 0 < / of_nat (length values))
    by by apply Qinv_lt_0_compat.
  unfold percentile. fold c. unfold Qdiv.
  set (n := of_nat (length values)) in *.
  assert (Hone : n * / n == 1) by (apply Qmult_inv_r; lra).
  assert (Hstep : ∀ a b : nat, (a ≤ b)%nat →
            of_nat a * / n * 100 <= of_nat b * / n * 100).
  { intros a b Hab. apply Qmult_le_compat_r; [|lra].
    apply Qmult_le_compat_r; [by apply of_nat_le | lra]. }
  split; [|split].
  - specialize (Hstep 1%nat c Hc1).
    assert (H1 : of_nat 1 == 1) by reflexivity.
    rewrite H1 in Hstep. lra.
  - specialize (Hstep c (length values) Hcn). fold n in Hstep.
    rewrite Hone in Hstep. lra.
  - split.
    + intros H100.
      assert (Hcn' : c = length values).
      { destruct (decide (c = length values)) as [|Hne]; [done|].
        exfalso.
        assert (Hlt : of_nat c * / n * 100 < 100); [|lra].
        assert (Hs : of_nat (S c) * / n * 100
                     <= of_nat (length values) * / n * 100)
          by (apply Hstep; lia).
        fold n in Hs. rewrite Hone, of_nat_S in Hs.
        assert (Hexp : (of_nat c + 1) * / n * 100
                       == of_nat c * / n * 100 + / n * 100) by ring.
        rewrite Hexp in Hs. lra. }
      apply filter_length_all in Hcn'.
      eapply Forall_impl; [exact Hcn'|]. intros v Hv. simpl in Hv.
      by apply Qle_bool_iff.
    + intros Hall.
      assert (Hcn' : c = length values).
      { apply filter_length_all. eapply Forall_impl; [exact Hall|].
        intros v Hv. simpl. by apply Qle_bool_iff. }
      rewrite Hcn'. fold n. rewrite Hone. ring.
Qed.

Lemma percentile_of_latest_witness :
  0 < percentile [2; 9; 4] 4
  ∧ percentile [2; 9; 4] 4 <= 100
  ∧ (percentile [2; 9; 4] 4 == 100 ↔ Forall (λ v, v <= 4) [2; 9; 4]).
Proof.
  exact (percentile_of_latest [2; 9; 4] 4 eq_refl).
Defined.

End SummaryFacts.

(** ** More on the matching rules *)

Module MatchMore.
Import Text Match TextFacts.

Lemma upper_ascii_idem (c : ascii) : upper_ascii (upper_ascii c) = upper_ascii c.
Proof. destruct c as [[] [] [] [] [] [] [] []]; reflexivity. Qed.

Lemma upper_ascii_underscore (c : ascii) :
  Ascii.eqb (upper_ascii c) "_" = Ascii.eqb c "_"
  ∧ Ascii.eqb "_" (upper_ascii c) = Ascii.eqb "_" c.
Proof. destruct c as [[] [] [] [] [] [] [] []]; split; reflexivity. Qed.

Lemma upper_idem (s : string) : upper (upper s) = upper s.
Proof.
  induction s as [|c s IH]; simpl; [done|].
  by rewrite upper_ascii_idem, IH.
Qed.

Lemma contains_underscore_cons (c : ascii) (s : string) :
  contains (String c s) "_" = Ascii.eqb "_" c || contains s "_".
Proof. cbn [contains startswith]. by rewrite andb_true_r. Qed.

Lemma contains_underscore_upper (s : string) :
  contains (upper s) "_" = contains s "_".
Proof.
  induction s as [|c s IH]; [done|]. cbn [upper].
  rewrite !contains_underscore_cons, IH.
  by rewrite (proj2 (upper_ascii_underscore c)).
Qed.

Lemma split_nonempty (sep : ascii) (s : string) : split sep s ≠ [].
Proof.
  destruct s as [|c s]; simpl; [done|].
  destruct (Ascii.eqb c sep); [done|]. by destruct (split sep s).
Qed.

Lemma split_upper (s : string) :
  split "_" (upper s) = upper <$> split "_" s.
Proof.
  induction s as [|c s IH]; [done|]. cbn [upper split].
  rewrite (proj1 (upper_ascii_underscore c)), IH.
  destruct (Ascii.eqb c "_"); [done|].
  by destruct (split "_" s).
Qed.

Lemma last_fmap_upper (l : list string) :
  List.last (upper <$> l) EmptyString = upper (List.last l EmptyString).
Proof.
  induction l as [|w l IH]; [done|].
  destruct l as [|w' l]; [done|]. exact IH.
Qed.

Lemma base_ticker_upper (k : string) :
  base_ticker (upper k) = upper (base_ticker k).
Proof.
  unfold base_ticker. rewrite contains_underscore_upper.
  destruct (contains k "_"); [|done].
  by rewrite split_upper, last_fmap_upper.
Qed.

(** X12. Every extraction rule ignores the case of both the key and the
    target: it gives the same answer on their upper-case forms. *)
Theorem matching_ignores_case (ticker_key target : string) :
  multi_retail_match (upper ticker_key) (upper target)
  = multi_retail_match ticker_key target
  ∧ multi_options_match (upper ticker_key) (upper target)
    = multi_options_match ticker_key target
  ∧ single_retail_match (upper ticker_key) (upper target)
    = single_retail_match ticker_key target
  ∧ single_options_match (upper ticker_key) (upper target)
    = single_options_match ticker_key target.
Proof.
  unfold multi_retail_match, multi_options_match, single_retail_match,
    single_options_match.
  by rewrite base_ticker_upper, !upper_idem.
Qed.

(** No piece of a split holds the separator. *)
Lemma split_pieces_clean (s : string) :
  Forall (λ w, contains w "_" = false) (split "_" s).
Proof.
  induction s as [|c s IH]; simpl; [by repeat constructor|].
  destruct (Ascii.eqb c "_") eqn:Hc; [by constructor|].
  assert (Hc' : Ascii.eqb "_" c = false) by by rewrite Ascii.eqb_sym.
  destruct (split "_" s) as [|w ws].
  - constructor; [|constructor].
    rewrite contains_underscore_cons, Hc'. done.
  - inversion IH as [|? ? Hw Hws]; subst. constructor; [|done].
    by rewrite contains_underscore_cons, Hw, Hc'.
Qed.

Lemma last_elem_of (l : list string) (d : string) :
  l ≠ [] → List.last l d ∈ l.
Proof.
  induction l as [|w l IH]; [done|]. intros _.
  destruct l as [|w' l]; [apply list_elem_of_here|].
  apply list_elem_of_further, IH. done.
Qed.

Lemma base_ticker_clean (k : string) : contains (base_ticker k) "_" = false.
Proof.
  unfold base_ticker. destruct (contains k "_") eqn:Hk; [|done].
  pose proof (split_pieces_clean k) as Hall.
  rewrite Forall_forall in Hall. apply Hall, last_elem_of, split_nonempty.
Qed.

Lemma split_clean (s : string) :
  contains s "_" = false → split "_" s = [s].
Proof.
  induction s as [|c s IH]; [done|].
  rewrite contains_underscore_cons. intros Hc.
  apply orb_false_iff in Hc as [Hc Hs]. simpl.
  rewrite Ascii.eqb_sym, Hc, (IH Hs). done.
Qed.

Lemma split_cons (sep c : ascii) (s : string) :
  split sep (String c s) =
  if Ascii.eqb c sep then EmptyString :: split sep s
  else match split sep s with
       | [] => [String c EmptyString]
       | w :: ws => String c w :: ws
       end.
Proof. reflexivity. Qed.

Lemma split_after_separator (pre t : string) :
  ∃ w ws, split "_" (pre ++ String "_" t) = w :: ws ∧ ws ≠ []
          ∧ List.last ws EmptyString = List.last (split "_" t) EmptyString.
Proof.
  induction pre as [|c pre (w & ws & Heq & Hne & Hlast)].
  - simpl. exists EmptyString, (split "_" t).
    split; [done|]. split; [apply split_nonempty | done].
  - change (String c pre ++ String "_" t)
      with (String c (pre ++ String "_" t)).
    rewrite split_cons, Heq.
    destruct (Ascii.eqb c "_").
    + exists EmptyString, (w :: ws). split; [done|]. split; [done|].
      rewrite <- Hlast. by destruct ws.
    + by exists (String c w), ws.
Qed.

(** X13. [base_ticker] is what follows the last underscore: the result
    never holds an underscore, a key without one is returned whole, and
    for a key [pre_t] whose tail [t] has no underscore the result is
    [t]. *)
Theorem base_ticker_last_segment (k pre t : string) :
  contains (base_ticker k) "_" = false
  ∧ (contains k "_" = false → base_ticker k = k)
  ∧ (contains t "_" = false → base_ticker (pre ++ String "_" t) = t).
Proof.
  split; [apply base_ticker_clean|]. split.
  - intros Hk. unfold base_ticker. by rewrite Hk.
  - intros Ht. unfold base_ticker.
    assert (Hsub : contains (pre ++ String "_" t) "_" = true).
    { apply contains_spec. by exists pre, t. }
    rewrite Hsub.
    destruct (split_after_separator pre t) as (w & ws & -> & Hne & Hlast).
    rewrite (split_clean t Ht) in Hlast.
    destruct ws; [done|]. exact Hlast.
Qed.

Lemma base_ticker_last_segment_witness :
  base_ticker "OTM_small_AAPL" = "AAPL" ∧ base_ticker "MSFT" = "MSFT".
Proof.
  split.
  - exact (proj2 (proj2 (base_ticker_last_segment "" "OTM_small" "AAPL"))
                 eq_refl).
  - exact (proj1 (proj2 (base_ticker_last_segment "MSFT" "" "")) eq_refl).
Defined.

(** X14. How the rules compare: a key the single-security options rule
    accepts is accepted by the multi-security one; a key the multi-security
    retail rule accepts is accepted by the single-security retail rule and
    by the multi-security options rule; and the single-security options
    rule accepts no key at all for a target that holds an underscore. *)
Theorem matching_rules_compared (ticker_key target : string) :
  (single_options_match ticker_key target = true →
     multi_options_match ticker_key target = true)
  ∧ (multi_retail_match ticker_key target = true →
       single_retail_match ticker_key target = true
       ∧ multi_options_match ticker_key target = true)
  ∧ (contains target "_" = true →
       single_options_match ticker_key target = false).
Proof.
  unfold single_options_match, multi_options_match, multi_retail_match,
    single_retail_match.
  split; [|split].
  - by intros ->.
  - intros Heq. apply String.eqb_eq in Heq. rewrite Heq, !String.eqb_refl.
    split; [done | by rewrite orb_true_r].
  - intros Ht. apply not_true_iff_false. intros Heq.
    apply String.eqb_eq in Heq.
    pose proof (base_ticker_clean (upper ticker_key)) as Hclean.
    rewrite base_ticker_upper, Heq, contains_underscore_upper in Hclean.
    congruence.
Qed.

Lemma matching_rules_compared_witness :
  multi_options_match "OTM_small_AAPL" "aapl" = true
  ∧ single_retail_match "Aapl" "AAPL" = true
  ∧ single_options_match "BRK_B" "BRK_B" = false.
Proof.
  split; [|split].
  - exact (proj1 (matching_rules_compared "OTM_small_AAPL" "aapl") eq_refl).
  - exact (proj1 (proj1 (proj2 (matching_rules_compared "Aapl" "AAPL"))
                        eq_refl)).
  - exact (proj2 (proj2 (matching_rules_compared "BRK_B" "BRK_B")) eq_refl).
Defined.

End MatchMore.

(** ** Authentication, session and rate limit *)

Module SessionFacts.
Import Session.

Local Open Scope Z_scope.

Lemma filter_weaker (p q : Z → bool) (l : list Z) :
  (∀ x, q x = true → p x = true) →
  List.filter q (List.filter p l) = List.filter q l.
Proof.
  intros Hqp. induction l as [|x l IH]; simpl; [done|].
  destruct (p x) eqn:Hp; simpl.
  - destruct (q x); by rewrite IH.
  - destruct (q x) eqn:Hq; [|done]. apply Hqp in Hq. congruence.
Qed.

Lemma filter_all (p : Z → bool) (l : list Z) :
  (∀ x, x ∈ l → p x = true) → List.filter p l = l.
Proof.
  induction l as [|x l IH]; intros Hall; simpl; [done|].
  rewrite (Hall x) by apply list_elem_of_here. f_equal. apply IH.
  intros y Hy. apply Hall. by apply list_elem_of_further.
Qed.

Lemma filter_length_le (p : Z → bool) (l : list Z) :
  (length (List.filter p l) ≤ length l)%nat.
Proof.
  induction l as [|x l IH]; simpl; [done|]. destruct (p x); simpl; lia.
Qed.

Lemma elem_of_filter_1 (p : Z → bool) (l : list Z) (x : Z) :
  x ∈ List.filter p l → x ∈ l ∧ p x = true.
Proof.
  rewrite !list_elem_of_In. intros Hx. by apply List.filter_In in Hx.
Qed.

(** One guarded request, seen through the history it leaves and the
    instants it lets through. *)
Lemma check_rate_limit_step (max W now : Z) (st : session_state) :
  let pruned := List.filter (λ a, now - minutes W <? a)
                  (default [] (request_history st)) in
  let '(st1, out) := check_rate_limit max W now st in
  (Z.of_nat (length pruned) < max
   ∧ request_history st1 = Some (pruned ++ [now])%list
   ∧ ∃ c e, out = Allowed c e)
  ∨ (max ≤ Z.of_nat (length pruned)
     ∧ request_history st1 = Some pruned
     ∧ ∀ c e, out ≠ Allowed c e).
Proof.
  unfold check_rate_limit.
  set (pruned := List.filter _ _).
  destruct (max <=? Z.of_nat (length pruned)) eqn:Hmax.
  - apply Z.leb_le in Hmax. destruct pruned as [|first rest] eqn:Hp;
      right; repeat split; done.
  - apply Z.leb_gt in Hmax.
    destruct (if Stats.Qlt_bool _ 50 then _ else _) as [color emoji].
    left. repeat split; [done|]. by exists color, emoji.
Qed.

Lemma run_requests_invariant (max W : Z) (calls : list Z) :
  0 < W → Sorted Z.le calls →
  ∀ (st : session_state) (now : Z),
    last calls = Some now →
    (∀ a t, a ∈ default [] (request_history st) → t ∈ calls → a ≤ t) →
    (Z.of_nat (length (default [] (request_history st))) ≤ max) →
    let '(st', allowed) := run_requests max W calls st in
    request_history st' =
      Some (List.filter (λ a, now - minutes W <? a)
              (default [] (request_history st) ++ allowed)%list)
    ∧ Z.of_nat (length (List.filter (λ a, now - minutes W <? a)
                          (default [] (request_history st) ++ allowed)%list))
      ≤ max.
Proof.
  intros HW Hsorted. apply Sorted_StronglySorted in Hsorted;
    [|intros x y z; apply Z.le_trans].
  induction Hsorted as [|t rest Hrest IH Ht]; intros st now Hlast Hold Hlen;
    [done|].
  cbn [run_requests].
  pose proof (check_rate_limit_step max W t st) as Hstep.
  destruct (check_rate_limit max W t st) as [st1 out].
  set (h0 := default [] (request_history st)) in *.
  set (pruned := List.filter (λ a, t - minutes W <? a) h0) in *.
  assert (Hpruned_le : (length pruned ≤ length h0)%nat)
    by apply filter_length_le.
  assert (Ht_in : (t - minutes W <? t) = true)
    by (apply Z.ltb_lt; unfold minutes; lia).
  destruct rest as [|t' rest'].
  - (* the last request *)
    injection Hlast as <-. cbn [run_requests].
    destruct Hstep as [(Hlt & Hh & c & e & ->) | (Hge & Hh & Hout)].
    + rewrite Hh, List.filter_app. fold pruned.
      cbn [List.filter]. rewrite Ht_in.
      split; [done|]. rewrite length_app. simpl. lia.
    + assert (Hres : request_history st1 =
                Some (List.filter (λ a, t - minutes W <? a) (h0 ++ [])%list)
              ∧ Z.of_nat (length (List.filter (λ a, t - minutes W <? a)
                                    (h0 ++ [])%list)) ≤ max).
      { rewrite (right_id_L [] (++)%list). fold pruned. split; [done | lia]. }
      destruct out; [by destruct (Hout color emoji) | done..].
  - (* a request followed by others *)
    assert (Hlast' : last (t' :: rest') = Some now) by done.
    assert (Hnow : t ≤ now).
    { rewrite Forall_forall in Ht. apply Ht.
      apply last_Some in Hlast' as [l' ->]. rewrite elem_of_app.
      right. apply list_elem_of_here. }
    assert (Hweak : ∀ x, (now - minutes W <? x) = true →
                         (t - minutes W <? x) = true).
    { intros x Hx. apply Z.ltb_lt in Hx. apply Z.ltb_lt. lia. }
    assert (Hh1 : ∃ h1, request_history st1 = Some h1
              ∧ (∀ a t0, a ∈ h1 → t0 ∈ t' :: rest' → a ≤ t0)
              ∧ Z.of_nat (length h1) ≤ max
              ∧ ((∃ c e, out = Allowed c e) ∧ h1 = (pruned ++ [t])%list
                 ∨ (∀ c e, out ≠ Allowed c e) ∧ h1 = pruned)).
    { destruct Hstep as [(Hlt & Hh & Hout) | (Hge & Hh & Hout)].
      - exists (pruned ++ [t])%list. split; [done|]. split; [|split].
        + intros a t0 Ha Ht0. apply elem_of_app in Ha as [Ha|Ha].
          * apply elem_of_filter_1 in Ha as [Ha _].
            apply (Hold a t0 Ha). by apply list_elem_of_further.
          * apply list_elem_of_singleton in Ha as ->.
            rewrite Forall_forall in Ht. by apply Ht.
        + rewrite length_app. simpl. lia.
        + by left.
      - exists pruned. split; [done|]. split; [|split].
        + intros a t0 Ha Ht0. apply elem_of_filter_1 in Ha as [Ha _].
          apply (Hold a t0 Ha). by apply list_elem_of_further.
        + lia.
        + by right. }
    destruct Hh1 as (h1 & Hh1 & Hold1 & Hlen1 & Hcase).
    specialize (IH st1 now Hlast').
    rewrite Hh1 in IH. change (default [] (Some h1)) with h1 in IH.
    specialize (IH Hold1 Hlen1).
    destruct (run_requests max W (t' :: rest') st1) as [st2 allowed].
    destruct IH as [IHh IHlen].
    assert (Hsame : ∀ tail,
              List.filter (λ a, now - minutes W <? a) (pruned ++ tail)%list
              = List.filter (λ a, now - minutes W <? a) (h0 ++ tail)%list).
    { intros tail. rewrite !List.filter_app. f_equal.
      unfold pruned. by apply filter_weaker. }
    destruct Hcase as [[(c & e & ->) ->] | [Hout ->]].
    + rewrite <- (assoc_L (++)%list) in IHh, IHlen. simpl in IHh, IHlen.
      rewrite Hsame in IHh, IHlen. done.
    + rewrite Hsame in IHh, IHlen.
      destruct out; [by destruct (Hout color emoji) | done..].
Qed.

(** X15. The limit holds: from a session without history, after any run
    of requests at non-decreasing instants, the requests let through
    during the last [window_minutes] are at most [max_requests], and they
    are exactly what the session remembers. *)
Theorem rate_limit_holds (max_requests window_minutes : Z)
    (earlier : list Z) (now : Z) (st : session_state) :
  0 ≤ max_requests → 0 < window_minutes →
  Sorted Z.le (earlier ++ [now]) →
  request_history st = None →
  let result := run_requests max_requests window_minutes
                  (earlier ++ [now])%list st in
  let recent := List.filter (λ a, now - minutes window_minutes <? a)
                  result.2 in
  (length recent ≤ Z.to_nat max_requests)%nat
  ∧ request_history result.1 = Some recent.
Proof.
  intros Hmax HW Hsorted Hnone result recent.
  pose proof (run_requests_invariant max_requests window_minutes
                (earlier ++ [now])%list HW Hsorted st now) as Hinv.
  rewrite Hnone in Hinv. simpl in Hinv.
  subst recent result.
  destruct (run_requests max_requests window_minutes
              (earlier ++ [now])%list st) as [st' allowed].
  destruct Hinv as [Hh Hlen].
  - apply last_Some. by exists earlier.
  - intros a t Ha. by apply elem_of_nil in Ha.
  - done.
  - simpl. split; [lia | done].
Qed.

Lemma rate_limit_holds_witness :
  (length (List.filter (λ a, (5000000000 - minutes 60 <? a)%Z)
             (run_requests 2%Z 60%Z
                [1000000000; 2000000000; 3000000000; 5000000000]%Z
                cleared).2)
   ≤ Z.to_nat 2%Z)%nat.
Proof.
  refine (proj1 (rate_limit_holds 2 60
                   [1000000000; 2000000000; 3000000000] 5000000000
                   cleared _ _ _ eq_refl)); [lia | lia |].
  repeat constructor; discriminate.
Defined.

(** X16. When a request is refused, the minutes it tells to wait lie
    between 0 and the length of the window, provided no remembered
    request is later than the clock and the window is at most a day. *)
Theorem rate_limit_wait (max_requests window_minutes now remaining : Z)
    (st st' : session_state) :
  0 < window_minutes ≤ 1440 →
  (∀ a, a ∈ default [] (request_history st) → a ≤ now) →
  check_rate_limit max_requests window_minutes now st
  = (st', Limited remaining) →
  0 ≤ remaining ≤ window_minutes.
Proof.
  intros HW Hpast. unfold check_rate_limit.
  set (pruned := List.filter _ _).
  destruct (max_requests <=? Z.of_nat (length pruned));
    [|by destruct (if Stats.Qlt_bool _ 50 then _ else _)].
  destruct pruned as [|first rest] eqn:Hp; [done|].
  intros [= _ <-].
  assert (Hfirst : first ∈ pruned) by (rewrite Hp; apply list_elem_of_here).
  apply elem_of_filter_1 in Hfirst as [Hin Hcut].
  apply Z.ltb_lt in Hcut. specialize (Hpast first Hin).
  unfold td_seconds, minutes in *.
  Z.div_mod_to_equations. lia.
Qed.

Lemma rate_limit_wait_witness : 0 ≤ 26 ≤ 60.
Proof.
  apply (rate_limit_wait 2 60 3000000000 26
           (with_history cleared [1000000000; 2000000000])
           (with_history cleared [1000000000; 2000000000]));
    [lia | | reflexivity].
  intros a Ha.
  apply elem_of_cons in Ha as [->|Ha]; [lia|].
  apply elem_of_cons in Ha as [->|Ha]; [lia|].
  by apply elem_of_nil in Ha.
Defined.

Lemma hex_digit_ascii (n : nat) :
  (nat_of_ascii (hex_digit n) <? 128)%nat = true.
Proof.
  unfold hex_digit.
  destruct (list_ascii_of_string "0123456789abcdef" !! n) as [c|] eqn:Hc;
    [|reflexivity].
  apply list_elem_of_lookup_2 in Hc. cbn in Hc.
  repeat (apply elem_of_cons in Hc as [->|Hc]; [reflexivity|]).
  by apply elem_of_nil in Hc.
Qed.

(** What [hexdigest] prints is ASCII, whatever the digest. *)
Lemma is_ascii_hexdigest (digest : list byte) :
  is_ascii (hexdigest digest) = true.
Proof.
  unfold is_ascii. induction digest as [|b digest IH]; [done|].
  cbn [hexdigest foldr list_ascii_of_string forallb].
  rewrite !hex_digit_ascii. exact IH.
Qed.

Lemma hexdigest_nonempty (digest : list byte) :
  digest ≠ [] → hexdigest digest ≠ "".
Proof. by destruct digest. Qed.

(** X17. With a stored hash that is an ASCII string, or none (it then
    counts as the empty string), entering a password logs in exactly when
    its hash is the stored one.  On success the password leaves the
    session and the login instant is recorded; on failure the failure
    counter grows by one and the password typed stays in the session.
    With a stored value that is not a string, or holds a character beyond
    ASCII, the comparison raises: nobody logs in and nothing is counted.
    With no stored hash nobody logs in, the digest being non-empty. *)
Theorem login_outcome (sha256 : string → list byte)
    (secret : option secret_value) (now : Z) (pw : string)
    (st : session_state) :
  (∀ stored,
     default (SecretStr "") secret = SecretStr stored →
     is_ascii stored = true →
     ∃ st', enter_password sha256 secret now pw st = Some st'
       ∧ (check_password st' = true ↔ hexdigest (sha256 pw) = stored)
       ∧ (check_password st' = true →
            password st' = None ∧ login_time st' = Some now
            ∧ failed_attempts st' = failed_attempts st)
       ∧ (check_password st' = false →
            password st' = Some pw ∧ login_time st' = login_time st
            ∧ failed_attempts st'
              = Some (default 0 (failed_attempts st) + 1)))
  ∧ ((∀ stored, default (SecretStr "") secret = SecretStr stored →
        is_ascii stored = false) →
     enter_password sha256 secret now pw st = None)
  ∧ (sha256 pw ≠ [] → secret = None →
     ∃ st', enter_password sha256 secret now pw st = Some st'
            ∧ check_password st' = false).
Proof.
  unfold enter_password, password_entered, compare_digest. simpl.
  rewrite is_ascii_hexdigest. split; [|split].
  - intros stored -> Hascii. rewrite Hascii. simpl.
    destruct (String.eqb (hexdigest (sha256 pw)) stored) eqn:Heq.
    + apply String.eqb_eq in Heq. eexists. split; [done|].
      unfold check_password. simpl. repeat split; done.
    + apply String.eqb_neq in Heq. eexists. split; [done|].
      unfold check_password. simpl. repeat split; done.
  - intros Hbad. destruct (default (SecretStr "") secret) as [stored|];
      [|done].
    by rewrite (Hbad stored eq_refl).
  - intros Hdigest ->. simpl.
    apply hexdigest_nonempty, String.eqb_neq in Hdigest.
    rewrite Hdigest. by eexists.
Qed.

Lemma login_outcome_witness :
  (∃ st', enter_password Samples.toy_digest None 0 "guess" cleared
          = Some st'
          ∧ check_password st' = false
          ∧ failed_attempts st' = Some 1)
  ∧ enter_password Samples.toy_digest (Some SecretOther) 0 "guess" cleared
    = None.
Proof.
  split.
  - destruct (login_outcome Samples.toy_digest None 0 "guess" cleared)
      as (Hstored & _).
    destruct (Hstored "" eq_refl eq_refl) as (st' & Hst' & Hiff & _ & Hfail).
    assert (Hno : check_password st' = false).
    { apply not_true_iff_false. intros Hyes. by apply Hiff in Hyes. }
    exists st'. split; [exact Hst'|]. split; [exact Hno|].
    exact (proj2 (proj2 (Hfail Hno))).
  - destruct (login_outcome Samples.toy_digest (Some SecretOther) 0
                "guess" cleared) as (_ & Hraise & _).
    apply Hraise. discriminate.
Defined.

(** X18. [monitor_session] ends a session exactly when more than an hour
    has passed since the login, an hour sharp being kept; whenever it
    ends one, by expiry or by the logout button, nothing of the session
    is left and [check_password] asks for the password again; otherwise
    the login and the request history are untouched. *)
Theorem session_expiry (t_start t_now t_default : Z) (logout_clicked : bool)
    (st : session_state) :
  let result := monitor_session t_start t_now t_default logout_clicked st in
  (result.2 = Stop ↔
     3600000000 < t_now - default t_default (login_time st))
  ∧ (result.2 ≠ Continue →
       result.1 = cleared ∧ check_password result.1 = false)
  ∧ (result.2 = Continue →
       logout_clicked = false
       ∧ check_password result.1 = check_password st
       ∧ login_time result.1 = login_time st
       ∧ request_history result.1 = request_history st).
Proof.
  unfold monitor_session.
  assert (Hlogin : ∀ t, login_time
            match session_start st with
            | Some _ => st
            | None =>
                {| password_correct := password_correct st;
                   login_time := login_time st;
                   password := password st;
                   failed_attempts := failed_attempts st;
                   request_history := request_history st;
                   session_start := Some t;
                   widgets := widgets st |}
            end = login_time st) by (intros t; by destruct (session_start st)).
  rewrite Hlogin. change (3600 * 1000000) with 3600000000.
  destruct (3600000000 <? t_now - default t_default (login_time st))
    eqn:Hexp; simpl.
  - apply Z.ltb_lt in Hexp. repeat split; done.
  - apply Z.ltb_ge in Hexp.
    destruct logout_clicked; simpl.
    + repeat split; try done. intros Hlate. lia.
    + repeat split; try done; try (by destruct (session_start st)).
      intros Hlate. lia.
Qed.

Lemma session_expiry_witness :
  (monitor_session 0 3600000001 3600000001 false
     (with_history cleared [])).2 = Continue
  ∧ (monitor_session 0 3600000000 3600000000 false
       {| password_correct := Some true; login_time := Some 0;
          password := None; failed_attempts := None;
          request_history := None; session_start := Some 0;
          widgets := ∅ |}).2 ≠ Stop
  ∧ check_password
      (monitor_session 0 3600000001 3600000001 false
         {| password_correct := Some true; login_time := Some 0;
            password := None; failed_attempts := None;
            request_history := None; session_start := Some 0;
            widgets := ∅ |}).1 = false.
Proof.
  split; [reflexivity|]. split.
  - intros Hstop.
    apply (proj1 (session_expiry 0 3600000000 3600000000 false _)) in Hstop.
    simpl in Hstop. lia.
  - refine (proj2 (proj1 (proj2 (session_expiry 0 3600000001 3600000001
                                   false _)) _)).
    discriminate.
Defined.

(** X19. The "Reset Session" button keeps the five option widgets and
    nothing else: the user is logged out, and the request history is
    forgotten, so that the next guarded request is let through whatever
    the history was. *)
Theorem reset_forgets (max_requests window_minutes now : Z)
    (st : session_state) (k : string) :
  check_password (reset_session st) = false
  ∧ (k ∈ kept_keys → widgets (reset_session st) !! k = widgets st !! k)
  ∧ (k ∉ kept_keys → widgets (reset_session st) !! k = None)
  ∧ (1 ≤ max_requests →
     let result := check_rate_limit max_requests window_minutes now
                     (reset_session st) in
     request_history result.1 = Some [now]
     ∧ ∃ color emoji, result.2 = Allowed color emoji).
Proof.
  split; [done|]. split; [|split].
  - intros Hk. unfold reset_session. simpl.
    destruct (widgets st !! k) as [v|] eqn:Hv.
    + by apply map_lookup_filter_Some_2.
    + apply map_lookup_filter_None. left. done.
  - intros Hk. unfold reset_session. simpl.
    apply map_lookup_filter_None. right. intros v _. done.
  - intros Hmax.
    pose proof (check_rate_limit_step max_requests window_minutes now
                  (reset_session st)) as Hstep.
    destruct (check_rate_limit max_requests window_minutes now
                (reset_session st)) as [st1 out].
    simpl in *. destruct Hstep as [(_ & Hh & Hout) | (Hge & _)]; [done | lia].
Qed.

Lemma reset_forgets_witness :
  request_history
    (check_rate_limit 50 60 3000000000
       (reset_session (with_history cleared [1000000000; 2000000000]))).1
  = Some [3000000000].
Proof.
  destruct (reset_forgets 50 60 3000000000
              (with_history cleared [1000000000; 2000000000]) "")
    as (_ & _ & _ & Hnext).
  apply Hnext. lia.
Defined.

(** X20. The generator and the login agree: a hash printed by
    [generate_password_hash] belongs to a password that was typed twice
    alike and has eight characters or more, and with that hash stored the
    same password logs in. *)
Theorem generated_hash_logs_in (sha256 : string → list byte)
    (inputs : list (string * string)) (hash : string)
    (now : Z) (st : session_state) :
  generate_password_hash sha256 inputs = Some hash →
  ∃ pw st',
    (pw, pw) ∈ inputs ∧ (8 ≤ String.length pw)%nat
    ∧ hash = hexdigest (sha256 pw)
    ∧ enter_password sha256 (Some (SecretStr hash)) now pw st = Some st'
    ∧ check_password st' = true.
Proof.
  induction inputs as [|[pw confirm] inputs IH]; [done|]. simpl.
  destruct (String.eqb pw confirm) eqn:Heq; simpl.
  - apply String.eqb_eq in Heq as <-.
    destruct (String.length pw <? 8)%nat eqn:Hlen.
    + intros Hgen. destruct (IH Hgen) as (pw' & st' & Hin & Hrest).
      exists pw', st'. split; [by apply list_elem_of_further | done].
    + apply Nat.ltb_ge in Hlen. intros [= <-].
      exists pw. eexists. split; [apply list_elem_of_here|].
      split; [done|]. split; [done|].
      unfold enter_password, password_entered, compare_digest. simpl.
      rewrite is_ascii_hexdigest, String.eqb_refl. done.
  - intros Hgen. destruct (IH Hgen) as (pw' & st' & Hin & Hrest).
    exists pw', st'. split; [by apply list_elem_of_further | done].
Qed.

Lemma generated_hash_logs_in_witness :
  ∃ pw st',
    (pw, pw) ∈ [("short", "short"); ("long enough", "long enouh");
                ("long enough", "long enough")]
    ∧ (8 ≤ String.length pw)%nat
    ∧ hexdigest (Samples.toy_digest "long enough")
      = hexdigest (Samples.toy_digest pw)
    ∧ enter_password Samples.toy_digest
        (Some (SecretStr (hexdigest (Samples.toy_digest "long enough"))))
        0 pw cleared = Some st'
    ∧ check_password st' = true.
Proof.
  apply (generated_hash_logs_in Samples.toy_digest
           [("short", "short"); ("long enough", "long enouh");
            ("long enough", "long enough")]
           (hexdigest (Samples.toy_digest "long enough")) 0 cleared).
  reflexivity.
Defined.

End SessionFacts.

(** ** Small and large trades put together *)

Module SizesFacts.
Import Flow Sizes FlowFacts.

Section Combine.
Context {V : Type} `{!Number V}.

Lemma lookup_dict_of_dates (f : string → V) (X : gset string) d :
  dict_of_dates f X !! d = if decide (d ∈ X) then Some (f d) else None.
Proof.
  unfold dict_of_dates. revert X d.
  apply (set_fold_ind_L (λ r Y, ∀ d, r !! d =
           if decide (d ∈ Y) then Some (f d) else None)).
  - intros d. rewrite lookup_empty. by case_decide; [set_solver|].
  - intros x Y r Hx IH d. destruct (decide (x = d)) as [->|Hne].
    + rewrite lookup_insert_eq. case_decide; [done | set_solver].
    + rewrite lookup_insert_ne by done. rewrite IH.
      destruct (decide (d ∈ Y)), (decide (d ∈ {[x]} ∪ Y));
        first [done | set_solver].
Qed.

Lemma lookup_combine_size_data
    (small_data large_data : gmap string (json_value V)) k :
  combine_size_data small_data large_data !! k =
  if decide (k ∈ dom small_data ∪ dom large_data)
  then combined_entry small_data large_data k else None.
Proof.
  unfold combine_size_data.
  generalize (dom small_data ∪ dom large_data). revert k.
  intros k X. revert X k.
  apply (set_fold_ind_L (λ r Y, ∀ k, r !! k =
           if decide (k ∈ Y) then combined_entry small_data large_data k
           else None)).
  - intros k. rewrite lookup_empty. by case_decide; [set_solver|].
  - intros x Y r Hx IH k. unfold combined_entry in *.
    destruct (decide (x = k)) as [->|Hne].
    + specialize (IH k). rewrite decide_False in IH by done.
      rewrite decide_True by set_solver.
      destruct (is_dict _ || is_dict _); [by rewrite lookup_insert_eq | done].
    + assert (Hk : r !! k = if decide (k ∈ {[x]} ∪ Y)
                then combined_entry small_data large_data k else None).
      { rewrite IH. unfold combined_entry.
        destruct (decide (k ∈ Y)), (decide (k ∈ {[x]} ∪ Y));
          first [done | set_solver]. }
      destruct (is_dict _ || is_dict _); [|exact Hk].
      by rewrite lookup_insert_ne.
Qed.

Lemma lookup_add_response (combined : gmap string (gmap string V))
    (response : gmap string (json_value V)) k :
  add_response combined response !! k =
  match response !! k with
  | Some (JDict dv) =>
      Some (map_fold add_value_init (default ∅ (combined !! k)) dv)
  | _ => combined !! k
  end.
Proof.
  unfold add_response. revert k.
  apply (map_fold_weak_ind (λ r m, ∀ k, r !! k =
           match m !! k with
           | Some (JDict dv) =>
               Some (map_fold add_value_init (default ∅ (combined !! k)) dv)
           | _ => combined !! k
           end)).
  - intros k. by rewrite lookup_empty.
  - intros i x m r Hi IH k.
    assert (Hri : r !! i = combined !! i).
    { specialize (IH i). by rewrite Hi in IH. }
    destruct (decide (i = k)) as [->|Hne].
    + rewrite lookup_insert_eq. destruct x as [dv|]; [|done].
      rewrite lookup_insert_eq. do 2 f_equal.
      case_decide as Hin.
      * by rewrite Hri.
      * apply not_elem_of_dom in Hin. rewrite lookup_insert_eq.
        rewrite <- Hri, Hin. done.
    + rewrite (lookup_insert_ne m) by done. rewrite <- IH.
      destruct x as [dv|]; [|done].
      rewrite lookup_insert_ne by done.
      case_decide; [done | by rewrite lookup_insert_ne].
Qed.

(** X21. [combine_size_data], key by key.  A key both responses hold with
    dictionaries gets the union of their dates, each with the small value
    plus the large one and [0] for a missing side; a key only the small
    response holds keeps its dates with [value + 0]; a key held by one
    response only, and not with a dictionary, still gets an entry, an
    empty one; a key under which neither response has a dictionary, both
    holding it, is dropped; and no other key appears. *)
Theorem combine_size_data_entries
    (small_data large_data : gmap string (json_value V)) (k d : string)
    (ds dl : gmap string V) :
  (small_data !! k = Some (JDict ds) → large_data !! k = Some (JDict dl) →
     ∃ m, combine_size_data small_data large_data !! k = Some m
       ∧ m !! d = if decide (d ∈ dom ds ∪ dom dl)
                  then Some (num_add (get ds d) (get dl d)) else None)
  ∧ (small_data !! k = Some (JDict ds) → large_data !! k = None →
       ∃ m, combine_size_data small_data large_data !! k = Some m
         ∧ m !! d = (λ a, num_add a num_zero) <$> ds !! d)
  ∧ (small_data !! k = Some JOther → large_data !! k = None →
       combine_size_data small_data large_data !! k = Some ∅)
  ∧ (small_data !! k = Some JOther → large_data !! k = Some JOther →
       combine_size_data small_data large_data !! k = None)
  ∧ (small_data !! k = None → large_data !! k = None →
       combine_size_data small_data large_data !! k = None).
Proof.
  rewrite lookup_combine_size_data. unfold combined_entry.
  split; [|split; [|split; [|split]]]; intros Hs Hl; rewrite Hs, Hl; simpl.
  - rewrite decide_True by (apply elem_of_union; left; by apply elem_of_dom).
    eexists. split; [done|]. by rewrite lookup_dict_of_dates.
  - rewrite decide_True by (apply elem_of_union; left; by apply elem_of_dom).
    eexists. split; [done|]. rewrite lookup_dict_of_dates.
    rewrite dom_empty_L, (right_id_L ∅ (∪)).
    unfold get. rewrite lookup_empty. simpl.
    case_decide as Hd.
    + apply elem_of_dom in Hd as [a Ha]. by rewrite Ha.
    + apply not_elem_of_dom in Hd. by rewrite Hd.
  - rewrite decide_True by (apply elem_of_union; left; by apply elem_of_dom).
    by f_equal.
  - by case_decide.
  - rewrite decide_False; [done|].
    rewrite elem_of_union, !elem_of_dom, Hs, Hl. by intros [[? ?]|[? ?]].
Qed.

(** X22. The two analyzers put the sizes together alike: on responses
    whose values are all dictionaries, and with [0] neutral for the
    addition, [combine_size_data] of single_security.py and the
    accumulation loop of multi_security.py build the same mapping. *)
Theorem size_combinations_agree
    (small_data large_data : gmap string (json_value V)) :
  (∀ a, num_add num_zero a = a) → (∀ a, num_add a num_zero = a) →
  (∀ k, small_data !! k ≠ Some JOther) →
  (∀ k, large_data !! k ≠ Some JOther) →
  combine_size_data small_data large_data
  = combine_sizes_multi small_data large_data.
Proof.
  intros H0l H0r Hs Hl. apply map_eq. intros k.
  rewrite lookup_combine_size_data. unfold combine_sizes_multi, combined_entry.
  rewrite !lookup_add_response, lookup_empty.
  specialize (Hs k). specialize (Hl k).
  assert (Hinner : ∀ acc dv d,
            map_fold add_value_init acc dv !! d =
            match dv !! d with
            | Some v => Some (num_add (get acc d) v)
            | None => acc !! d
            end).
  { intros acc dv d. by rewrite add_values_init_eq, lookup_add_values. }
  destruct (small_data !! k) as [[ds|]|] eqn:Hsk; [|done|];
    (destruct (large_data !! k) as [[dl|]|] eqn:Hlk; [|done|]); simpl.
  - rewrite decide_True by (apply elem_of_union; left; by apply elem_of_dom).
    f_equal. apply map_eq. intros d.
    rewrite lookup_dict_of_dates, !Hinner. unfold get.
    rewrite Hinner, lookup_empty. simpl.
    case_decide as Hd.
    + apply elem_of_union in Hd. rewrite !elem_of_dom in Hd.
      destruct (ds !! d) as [a|], (dl !! d) as [b|]; simpl;
        rewrite ?H0l, ?H0r; try done.
      by destruct Hd as [[? ?]|[? ?]].
    + apply not_elem_of_union in Hd as [Hd1 Hd2].
      apply not_elem_of_dom in Hd1, Hd2. by rewrite Hd1, Hd2.
  - rewrite decide_True by (apply elem_of_union; left; by apply elem_of_dom).
    f_equal. apply map_eq. intros d.
    rewrite lookup_dict_of_dates, Hinner. unfold get.
    rewrite !lookup_empty, dom_empty_L, (right_id_L ∅ (∪)). simpl.
    case_decide as Hd.
    + apply elem_of_dom in Hd as [a Ha]. by rewrite Ha, H0l, H0r.
    + apply not_elem_of_dom in Hd. by rewrite Hd.
  - rewrite decide_True by (apply elem_of_union; right; by apply elem_of_dom).
    f_equal. apply map_eq. intros d.
    rewrite lookup_dict_of_dates, Hinner. unfold get.
    rewrite !lookup_empty, dom_empty_L, (left_id_L ∅ (∪)). simpl.
    case_decide as Hd.
    + apply elem_of_dom in Hd as [b Hb]. by rewrite Hb.
    + apply not_elem_of_dom in Hd. by rewrite Hd.
  - rewrite decide_False; [done|].
    rewrite elem_of_union, !elem_of_dom, Hsk, Hlk. by intros [[? ?]|[? ?]].
Qed.

End Combine.

Lemma combine_size_data_entries_witness :
  ∃ m, combine_size_data
         ({["AAPL" := JDict Samples.call_dates_example]}
            : gmap string (json_value Q)) ∅ !! "AAPL" = Some m
       ∧ m !! "2024-01-02" = Some (30 + 0)%Q.
Proof.
  destruct (@combine_size_data_entries Q Q_number
              {["AAPL" := JDict Samples.call_dates_example]} ∅
              "AAPL" "2024-01-02" Samples.call_dates_example ∅)
    as (_ & Hsmall & _).
  exact (Hsmall eq_refl eq_refl).
Defined.

Lemma Qplus_zero_l (a : Q) : Qplus 0 a = a.
Proof. destruct a as [n d]. unfold Qplus. simpl. f_equal. lia. Qed.

Lemma Qplus_zero_r (a : Q) : Qplus a 0 = a.
Proof.
  destruct a as [n d]. unfold Qplus. simpl. f_equal; [lia|].
  apply Pos.mul_1_r.
Qed.

Lemma size_combinations_agree_witness :
  combine_size_data
    ({["AAPL" := JDict Samples.call_dates_example]}
       : gmap string (json_value Q))
    {["AAPL" := JDict Samples.put_dates_example]}
  = combine_sizes_multi
      {["AAPL" := JDict Samples.call_dates_example]}
      {["AAPL" := JDict Samples.put_dates_example]}.
Proof.
  apply (@size_combinations_agree Q Q_number _ _ Qplus_zero_l Qplus_zero_r).
  - intros k. destruct (decide (k = "AAPL")) as [->|Hne].
    + by rewrite lookup_singleton_eq.
    + by rewrite lookup_singleton_ne.
  - intros k. destruct (decide (k = "AAPL")) as [->|Hne].
    + by rewrite lookup_singleton_eq.
    + by rewrite lookup_singleton_ne.
Defined.

End SizesFacts.

(** ** The ticker field of the main page *)

Module ParseFacts.
Import Text Parse MatchMore.

Lemma upper_ascii_space (c : ascii) : is_space (upper_ascii c) = is_space c.
Proof. destruct c as [[] [] [] [] [] [] [] []]; reflexivity. Qed.

Lemma upper_ascii_comma (c : ascii) :
  Ascii.eqb (upper_ascii c) "," = Ascii.eqb c ",".
Proof. destruct c as [[] [] [] [] [] [] [] []]; reflexivity. Qed.

Lemma lstrip_upper (s : string) : lstrip (upper s) = upper (lstrip s).
Proof.
  induction s as [|c s IH]; [done|]. cbn [upper lstrip].
  rewrite upper_ascii_space. by destruct (is_space c).
Qed.

Lemma rstrip_upper (s : string) : rstrip (upper s) = upper (rstrip s).
Proof.
  induction s as [|c s IH]; [done|]. cbn [upper rstrip].
  rewrite IH, upper_ascii_space.
  destruct (rstrip s); simpl; [by destruct (is_space c) | done].
Qed.

Lemma strip_upper (s : string) : strip (upper s) = upper (strip s).
Proof. unfold strip. by rewrite lstrip_upper, rstrip_upper. Qed.

Lemma lstrip_clean_start (s : string) : clean_start (lstrip s).
Proof.
  induction s as [|c s IH]; [done|]. simpl.
  by destruct (is_space c) eqn:Hc.
Qed.

Lemma lstrip_fixed (s : string) : clean_start s → lstrip s = s.
Proof. destruct s as [|c s]; [done|]. simpl. by intros ->. Qed.

Lemma rstrip_clean_start (s : string) : clean_start s → clean_start (rstrip s).
Proof.
  destruct s as [|c s]; [done|]. simpl. intros Hc.
  destruct (rstrip s); simpl; [by rewrite Hc | done].
Qed.

Lemma rstrip_idem (s : string) : rstrip (rstrip s) = rstrip s.
Proof.
  induction s as [|c s IH]; [done|]. simpl.
  destruct (rstrip s) as [|a r] eqn:Hr.
  - destruct (is_space c) eqn:Hc; [done|]. simpl. by rewrite Hc.
  - cbn [rstrip]. cbn [rstrip] in IH. by rewrite IH.
Qed.

Lemma strip_idem (s : string) : strip (strip s) = strip s.
Proof.
  unfold strip.
  rewrite (lstrip_fixed (rstrip (lstrip s)))
    by apply rstrip_clean_start, lstrip_clean_start.
  apply rstrip_idem.
Qed.

Lemma has_char_lstrip c (s : string) :
  has_char c s = false → has_char c (lstrip s) = false.
Proof.
  induction s as [|a s IH]; [done|]. simpl. intros Hc.
  apply orb_false_iff in Hc as [Ha Hs].
  destruct (is_space a); [by apply IH|]. simpl. by rewrite Ha, Hs.
Qed.

Lemma has_char_rstrip c (s : string) :
  has_char c s = false → has_char c (rstrip s) = false.
Proof.
  induction s as [|a s IH]; [done|]. simpl. intros Hc.
  apply orb_false_iff in Hc as [Ha Hs]. specialize (IH Hs).
  destruct (rstrip s) as [|b r].
  - destruct (is_space a); [done|]. simpl. by rewrite Ha.
  - cbn [has_char]. cbn [has_char] in IH. by rewrite Ha, IH.
Qed.

Lemma has_comma_upper (s : string) : has_char "," (upper s) = has_char "," s.
Proof.
  induction s as [|a s IH]; [done|]. simpl.
  by rewrite upper_ascii_comma, IH.
Qed.

Lemma split_pieces_no_separator (sep : ascii) (s : string) :
  Forall (λ w, has_char sep w = false) (split sep s).
Proof.
  induction s as [|c s IH]; simpl; [by repeat constructor|].
  destruct (Ascii.eqb c sep) eqn:Hc; [by constructor|].
  destruct (split sep s) as [|w ws].
  - constructor; [|constructor]. simpl. by rewrite Hc.
  - inversion IH as [|? ? Hw Hws]; subst. constructor; [|done].
    simpl. by rewrite Hc, Hw.
Qed.

Lemma upper_empty (s : string) : upper s = "" → s = "".
Proof. by destruct s. Qed.

(** X23. Every ticker read from the ticker field is non-empty, free of
    commas, without white space at either end, and already in upper case,
    so that the analyzers' own [upper()] leaves it as it is. *)
Theorem parsed_tickers_clean (tickers_input t : string) :
  t ∈ parse_tickers tickers_input →
  t ≠ "" ∧ has_char "," t = false ∧ strip t = t ∧ upper t = t.
Proof.
  unfold parse_tickers. intros Ht.
  apply list_elem_of_fmap in Ht as (t0 & -> & Ht0).
  apply list_elem_of_In, List.filter_In in Ht0 as [Hin Hne].
  apply list_elem_of_In in Hin.
  apply negb_true_iff, String.eqb_neq in Hne.
  split; [|split; [|split]].
  - intros Hempty. by apply upper_empty in Hempty.
  - rewrite has_comma_upper. unfold strip.
    apply has_char_rstrip, has_char_lstrip.
    pose proof (split_pieces_no_separator "," tickers_input) as Hall.
    rewrite Forall_forall in Hall. by apply Hall.
  - by rewrite strip_upper, strip_idem.
  - apply upper_idem.
Qed.

Lemma parsed_tickers_clean_witness :
  "MSFT" ≠ "" ∧ has_char "," "MSFT" = false
  ∧ strip "MSFT" = "MSFT" ∧ upper "MSFT" = "MSFT".
Proof.
  apply (parsed_tickers_clean " aapl , msft ,, " "MSFT").
  vm_compute. repeat constructor.
Defined.

End ParseFacts.

(** ** The status of the retail fetch *)

Module FetchStatus.
Import Flow Fetch.

(** X24. The multi-security retail fetch answers "success" exactly when
    a token is set and the transaction type is 'combined', and returns no
    data otherwise; the single-security one answers "success" for every
    transaction type as soon as a token is set. *)
Theorem fetch_status {K : Type} `{Countable K} {V : Type}
    (token : option string) (net : network K V)
    (tickers : list string) (transaction_type : string) :
  ((fetch_stock_flow_data_multi token net tickers transaction_type).2
     = "success"
   ↔ no_token token = false ∧ transaction_type = "combined")
  ∧ ((fetch_stock_flow_data_multi token net tickers transaction_type).2
       ≠ "success" →
     (fetch_stock_flow_data_multi token net tickers transaction_type).1 = ∅)
  ∧ ((fetch_stock_flow_data_single token net tickers transaction_type).2
       = "success"
     ↔ no_token token = false).
Proof.
  unfold fetch_stock_flow_data_multi, fetch_stock_flow_data_single.
  destruct (no_token token).
  { repeat split; try done. by intros [? _]. }
  destruct (String.eqb transaction_type "combined") eqn:Hty.
  - apply String.eqb_eq in Hty.
    destruct (foldl (combined_step_multi net) _ tickers) as [n1 d1].
    destruct (foldl (combined_step_single net) _ tickers)
      as [[[n2 d2] b2] s2].
    repeat split; done.
  - apply String.eqb_neq in Hty.
    destruct (foldl _ _ tickers) as [n all_data].
    repeat split; try done. by intros [_ ?].
Qed.

Lemma fetch_status_witness :
  (fetch_stock_flow_data_multi (Some "secret") Samples.network_down
     ["AAPL"] "buy").1 = ∅.
Proof.
  refine (proj1 (proj2 (fetch_status (Some "secret") Samples.network_down
                          ["AAPL"] "buy")) _).
  discriminate.
Defined.

End FetchStatus.

(** ** The retail comparison page and the price cache *)

Module PagesFacts.
Import Flow Fetch Pages FetchFacts.

Section Pages.
Context {K : Type} `{Countable K} {V : Type}.

Lemma truthy_false {K' A : Type} `{Countable K'} (d : gmap K' A) :
  truthy d = false ↔ d = ∅.
Proof.
  unfold truthy. rewrite negb_false_iff, bool_decide_eq_true.
  split; [apply dom_empty_inv_L | intros ->; apply dom_empty_L].
Qed.

(** X25. With a token set the retail comparison never reports a failed
    fetch: whatever the network did it shows the success message, and when
    every request brought nothing it follows it with the notice that no
    data was found.  The failure message appears exactly when no token is
    set. *)
Theorem retail_comparison_messages (token : option string)
    (net : network K V) (ticker_list : list string) :
  ((analyze_retail_comparison token net ticker_list).1
     = ["Failed to fetch retail flow data"]
   ↔ no_token token = true)
  ∧ (no_token token = false →
     ∃ rest, (analyze_retail_comparison token net ticker_list).1
             = "Retail flow data fetched successfully!" :: rest)
  ∧ (no_token token = false → (∀ k rq, brings_nothing (net k rq)) →
     analyze_retail_comparison token net ticker_list
     = (["Retail flow data fetched successfully!";
         "No retail flow data found for comparison"], inl [])).
Proof.
  assert (Hshape : ∀ combined_data : gmap K (json_value V),
    let out := show_retail_comparison {["combined_data" := combined_data]}
                 "success" in
    out.1 ≠ ["Failed to fetch retail flow data"]
    ∧ (∃ rest, out.1 = "Retail flow data fetched successfully!" :: rest)
    ∧ (combined_data = ∅ →
       out = (["Retail flow data fetched successfully!";
               "No retail flow data found for comparison"], inl []))).
  { intros combined_data. cbv zeta. unfold show_retail_comparison.
    assert (Htruthy : truthy ({["combined_data" := combined_data]}
              : gmap string (gmap K (json_value V))) = true).
    { apply not_false_iff_true. rewrite truthy_false.
      intros Hempty. apply (f_equal (.!! "combined_data")) in Hempty.
      by rewrite lookup_singleton_eq, lookup_empty in Hempty. }
    rewrite Htruthy, lookup_singleton_eq, String.eqb_refl.
    cbn [andb fst].
    split; [|split].
    - by destruct (comparison_records as_dict combined_data).
    - destruct (comparison_records as_dict combined_data); by eexists.
    - intros ->. unfold comparison_records. by rewrite map_to_list_empty. }
  unfold analyze_retail_comparison, fetch_stock_flow_data_multi.
  destruct (no_token token) eqn:Htoken.
  { repeat split; done. }
  rewrite String.eqb_refl.
  split; [|split].
  - destruct (foldl (combined_step_multi net) _ ticker_list) as [n cd].
    destruct (Hshape cd) as (Hne & _).
    split; [intros Hfail; by destruct (Hne Hfail) | discriminate].
  - intros _. destruct (foldl (combined_step_multi net) _ ticker_list)
      as [n cd].
    by destruct (Hshape cd) as (_ & Hex & _).
  - intros _ Hnet. rewrite (multi_loop_nothing net ticker_list 0 Hnet).
    destruct (Hshape ∅) as (_ & _ & Hall). by apply Hall.
Qed.

(** X26. The price cache is written once and read many times: a lookup
    that finds the key returns what is stored, without asking the
    provider and without changing the cache; prices that come back
    non-empty are stored and every later lookup of the same ticker and
    dates returns them, whatever the provider does then; an empty or
    failed answer is not stored, so the next lookup asks again. *)
Theorem price_cache_write_once (first second : provider_outcome)
    (ticker from_date to_date : string)
    (price_cache : gmap string (gmap string V)) :
  let r1 := fetch_stock_price_data_improved first ticker from_date to_date
              price_cache in
  let r2 := fetch_stock_price_data_improved second ticker from_date to_date
              r1.2 in
  (truthy r1.1 = true → r2 = r1)
  ∧ (price_cache !! cache_key ticker from_date to_date = None →
     truthy r1.1 = false →
     r1.2 = price_cache
     ∧ r2 = fetch_stock_price_data_improved second ticker from_date to_date
              price_cache)
  ∧ (map_Forall (λ _ prices, truthy prices = true) price_cache →
     map_Forall (λ _ prices, truthy prices = true) r1.2).
Proof.
  unfold fetch_stock_price_data_improved.
  set (key := cache_key ticker from_date to_date).
  destruct (price_cache !! key) as [cached|] eqn:Hkey; simpl.
  - rewrite Hkey. repeat split; done.
  - destruct first as [price_dict|]; simpl.
    + destruct (truthy price_dict) eqn:Htruthy; simpl.
      * rewrite lookup_insert_eq. split; [done|]. split; [congruence|].
        intros Hall. by apply map_Forall_insert_2.
      * rewrite Hkey. split; [congruence|]. split; [done|]. done.
    + rewrite Hkey. split; [|done].
      intros Htruthy. exfalso. revert Htruthy.
      apply not_true_iff_false, truthy_false. done.
Qed.

End Pages.

Lemma retail_comparison_messages_witness :
  analyze_retail_comparison (Some "secret") Samples.network_down
    ["AAPL"; "MSFT"]
  = (["Retail flow data fetched successfully!";
      "No retail flow data found for comparison"], inl []).
Proof.
  destruct (retail_comparison_messages (Some "secret") Samples.network_down
              ["AAPL"; "MSFT"]) as (_ & _ & Hnothing).
  apply Hnothing; [reflexivity | intros k rq; exact I].
Defined.

Lemma price_cache_write_once_witness :
  fetch_stock_price_data_improved None "AAPL" "2024-01-01" "2024-01-31"
    (fetch_stock_price_data_improved (Some Samples.call_dates_example)
       "AAPL" "2024-01-01" "2024-01-31" ∅).2
  = fetch_stock_price_data_improved (Some Samples.call_dates_example)
      "AAPL" "2024-01-01" "2024-01-31" ∅.
Proof.
  destruct (price_cache_write_once (Some Samples.call_dates_example) None
              "AAPL" "2024-01-01" "2024-01-31"
              (∅ : gmap string (gmap string Q))) as (Hhit & _).
  apply Hhit. reflexivity.
Defined.

End PagesFacts.
